(** * qmemory: a knowledge-graph store over SQLite

    Shallow embedding of [src/index.ts].  The file holds two programs: the
    vector-enabled server (module [Enhanced], first part of the source) and
    the lexical-only server (module [Basic], second part).  Both keep the
    graph in two SQLite tables and encode an entity's observation array
    as one TEXT column, joined with the separator ["|||"].

    Conventions of the model
    - a string is the UTF-8 text SQLite stores for it, a [string] of bytes;
      SQLite's [LOWER] and [LIKE] fold the letters A-Z only, [LIKE] reads
      its operands up to the first NUL and takes a character for [_];
      JavaScript's [toLowerCase] is modelled on ASCII text, where it folds
      A-Z as well (it folds other letters too: the statements on a query
      taken from the caller ask for an ASCII query);
    - a table is the list of its rows in rowid order, the order in which a
      [SELECT] that scans the table returns them; a [SELECT] that SQLite
      answers through a UNIQUE index returns the rows in index order;
    - the [embedding] BLOB column of [entities] is never read, so rows do
      not carry it; what the source binds to it is modelled, since the
      driver refuses an [ArrayBuffer]; the [entities_vec] table, which
      vector search reads, is modelled;
    - a detached [(async () => { ... })()] closure does its database work
      after the operation that spawned it has returned: it is recorded as a
      pending [Task] of the store and run by [runTask]. *)

From Stdlib Require Import String Ascii List ZArith Bool Lia.
Import ListNotations.
Local Open Scope string_scope.

(** ** JavaScript string and array primitives used by the source *)
Module JS.

(** [Array.prototype.join(sep)] on an array of strings. *)
Fixpoint join (sep : string) (l : list string) : string :=
  match l with
  | [] => ""
  | [x] => x
  | x :: rest => x ++ sep ++ join sep rest
  end.

(** [String.prototype.split(sep)] for a non-empty separator: scan left to
    right, cut at every occurrence of [sep], occurrences do not overlap.
    [skip] counts the code units of a separator still to be passed over;
    [cur] is the piece collected so far. *)
Fixpoint split_from (sep : string) (skip : nat) (cur s : string) : list string :=
  match s with
  | EmptyString => [cur]
  | String c s' =>
      match skip with
      | S n => split_from sep n cur s'
      | O =>
          if prefix sep s
          then cur :: split_from sep (String.length sep - 1) "" s'
          else split_from sep 0 (cur ++ String c "") s'
      end
  end.

Definition split (sep s : string) : list string := split_from sep 0 "" s.

(** [Array.prototype.includes] on strings. *)
Definition includes (l : list string) (x : string) : bool :=
  existsb (String.eqb x) l.

(** Truthiness of a string: only the empty string is falsy. *)
Definition truthy (s : string) : bool :=
  match s with
  | EmptyString => false
  | String _ _ => true
  end.

Definition lower_char (c : ascii) : ascii :=
  let n := nat_of_ascii c in
  if ((65 <=? n) && (n <=? 90))%nat then ascii_of_nat (n + 32) else c.

(** [String.prototype.toLowerCase] (on ASCII text). *)
Fixpoint toLowerCase (s : string) : string :=
  match s with
  | EmptyString => EmptyString
  | String c s' => String (lower_char c) (toLowerCase s')
  end.

(** [String.prototype.includes]: [q] occurs in [s] as a substring. *)
Fixpoint str_includes (s q : string) : bool :=
  prefix q s ||
  match s with
  | EmptyString => false
  | String _ s' => str_includes s' q
  end.

End JS.

(** ** The data model (interfaces of the source) *)

Record Entity := mkEntity {
  name : string;
  entityType : string;
  observations : list string
}.

Record Relation := mkRelation {
  from : string;
  to : string;
  relationType : string
}.

Record KnowledgeGraph := mkGraph {
  entities : list Entity;
  relations : list Relation
}.

Definition emptyGraph : KnowledgeGraph := mkGraph [] [].

(** Argument and result items of [addObservations] and [deleteObservations]. *)
Record ObservationInput := mkInput {
  entityName : string;
  contents : list string
}.

Record ObservationResult := mkResult {
  res_entityName : string;
  addedObservations : list string
}.

Record Deletion := mkDeletion {
  del_entityName : string;
  del_observations : list string
}.

(** Errors thrown by the source. *)
Inductive Error : Type :=
| EntityNotFound (entityName : string)
    (* new Error(`Entity with name ${o.entityName} not found`) *)
| EmbeddingError
    (* generateEmbedding: model not initialized / no embedding produced *)
| SqliteError (message : string)
    (* an exception raised by the database engine *)
| TypeError (message : string).
    (* raised by the driver for an argument it cannot bind *)

(** ** State-and-exception monad

    A thrown exception unwinds the operation but does not undo the
    statements already run: the source opens no transaction, every
    [run] commits on its own. *)
Definition M (S A : Type) : Type := S -> S * (Error + A).

Definition ret {S A : Type} (a : A) : M S A := fun s => (s, inr a).

Definition bind {S A B : Type} (m : M S A) (k : A -> M S B) : M S B :=
  fun s =>
    match m s with
    | (s', inl e) => (s', inl e)
    | (s', inr a) => k a s'
    end.

Definition throw {S A : Type} (e : Error) : M S A := fun s => (s, inl e).

(** A statement that reads ([get]/[all]) and one that writes ([run]). *)
Definition query {S A : Type} (q : S -> A) : M S A := fun s => (s, inr (q s)).
Definition run {S A : Type} (q : S -> S * A) : M S A :=
  fun s => let (s', a) := q s in (s', inr a).
Definition exec {S : Type} (q : S -> S) : M S unit := fun s => (q s, inr tt).

(** A step that reads and may raise. *)
Definition attempt {S A : Type} (q : S -> Error + A) : M S A := fun s => (s, q s).

(** [try { body } catch (error) { handler }]: what [body] has written by
    the time it throws stays written. *)
Definition try_catch {S A : Type} (body : M S A) (handler : Error -> M S A) : M S A :=
  fun s =>
    match body s with
    | (s', inl e) => handler e s'
    | (s', inr a) => (s', inr a)
    end.

Declare Scope monad_scope.
Delimit Scope monad_scope with monad.
Notation "x <- m ;; k" := (bind m (fun x => k))
  (at level 61, m at next level, right associativity) : monad_scope.
Notation "m ;;; k" := (bind m (fun _ => k))
  (at level 61, right associativity) : monad_scope.
Local Open Scope monad_scope.

(** [for (const x of xs) { ... }] and [xs.forEach(...)]. *)
Fixpoint forEach {S A : Type} (body : A -> M S unit) (xs : list A) : M S unit :=
  match xs with
  | [] => ret tt
  | x :: rest => body x ;;; forEach body rest
  end.

(** A [for] loop that pushes onto a local array [acc]. *)
Fixpoint forPush {S A B : Type} (body : A -> M S (option B)) (xs : list A)
    (acc : list B) : M S (list B) :=
  match xs with
  | [] => ret acc
  | x :: rest =>
      pushed <- body x ;;
      forPush body rest (match pushed with Some b => acc ++ [b] | None => acc end)
  end.

(** [xs.map(f)] with a callback that may throw. *)
Fixpoint mapM {S A B : Type} (f : A -> M S B) (xs : list A) : M S (list B) :=
  match xs with
  | [] => ret []
  | x :: rest => y <- f x ;; ys <- mapM f rest ;; ret (y :: ys)
  end.

(** An [async] callback without [await]: it runs to completion when it is
    called and hands back a settled promise, fulfilled or rejected. *)
Definition async {S A : Type} (m : M S A) : M S (Error + A) :=
  fun s => let (s', r) := m s in (s', inr r).

(** [Promise.all] over promises that are already settled: the first
    rejection in array order, or else all the values. *)
Fixpoint Promise_all {A : Type} (ps : list (Error + A)) : Error + list A :=
  match ps with
  | [] => inr []
  | inl e :: _ => inl e
  | inr a :: rest =>
      match Promise_all rest with
      | inl e => inl e
      | inr l => inr (a :: l)
      end
  end.

Definition await {S A : Type} (p : Error + A) : M S A :=
  match p with
  | inl e => throw e
  | inr a => ret a
  end.

(** ** The SQLite tables and the prepared statements of the source *)
Module Sql.

(** What the source passes to [run], [get] and [all] of a prepared
    statement.  The driver binds numbers, strings, bigints, buffers and
    null; for any other value, a raw [ArrayBuffer] among them, the call
    throws a [TypeError] before the statement runs. *)
Inductive Value : Type :=
| TextValue (s : string)
| IntegerValue (z : Z)
| ArrayBufferValue.
    (* new Float32Array(768).buffer, embedding.buffer *)

Definition bindable (v : Value) : bool :=
  match v with
  | TextValue _ => true
  | IntegerValue _ => true
  | ArrayBufferValue => false
  end.

Definition bind_parameters (vs : list Value) : Error + unit :=
  if forallb bindable vs then inr tt
  else inl (TypeError
              "SQLite3 can only bind numbers, strings, bigints, buffers, and null").

(** [prepare] of a statement text with [n] placeholders [?]: SQLite
    refuses more than SQLITE_MAX_VARIABLE_NUMBER of them. *)
Definition SQLITE_MAX_VARIABLE_NUMBER : Z := 32766.

Definition prepare_placeholders (n : nat) : Error + unit :=
  if (SQLITE_MAX_VARIABLE_NUMBER <? Z.of_nat n)%Z
  then inl (SqliteError "too many SQL variables")
  else inr tt.

(** A row of [entities]: id INTEGER PRIMARY KEY AUTOINCREMENT,
    name TEXT UNIQUE NOT NULL, entityType TEXT NOT NULL,
    observations TEXT DEFAULT ''. *)
Record EntityRow := mkEntityRow {
  id : Z;
  col_name : string;
  col_entityType : string;
  col_observations : string
}.

(** A row of [relations]; UNIQUE(from_entity, to_entity, relationType).
    The row id of a relation is never read and is left out. *)
Record RelationRow := mkRelationRow {
  from_entity : string;
  to_entity : string;
  col_relationType : string
}.

(** [sqlite_sequence] holds the largest id the [entities] table has ever
    handed out: with AUTOINCREMENT an id is not reused after a delete. *)
Record Tables := mkTables {
  tbl_entities : list EntityRow;
  tbl_relations : list RelationRow;
  sqlite_sequence : Z
}.

(** The state after [initializeDatabase] on a fresh file. *)
Definition emptyTables : Tables := mkTables [] [] 0.

(** The condition of the database file while [loadGraph] reads it: a scan
    the storage cannot serve raises.  The other statements are modelled on
    a database that serves them. *)
Inductive Storage : Type :=
| Healthy
| EntitiesUnreadable (e : Error)
| RelationsUnreadable (e : Error).

(** SELECT * FROM entities *)
Definition select_all_entities (c : Storage) (db : Tables) : Error + list EntityRow :=
  match c with
  | EntitiesUnreadable e => inl e
  | _ => inr (tbl_entities db)
  end.

(** SELECT * FROM relations *)
Definition select_all_relations (c : Storage) (db : Tables)
    : Error + list RelationRow :=
  match c with
  | RelationsUnreadable e => inl e
  | _ => inr (tbl_relations db)
  end.

Definition name_is (n : string) (r : EntityRow) : bool := String.eqb (col_name r) n.

Definition same_triple (f t ty : string) (r : RelationRow) : bool :=
  String.eqb (from_entity r) f && String.eqb (to_entity r) t
  && String.eqb (col_relationType r) ty.

(** [x IN (v1, ..., vn)] on TEXT values. *)
Definition text_in (vs : list string) (x : string) : bool := existsb (String.eqb x) vs.

(** [x IN (v1, ..., vn)] on INTEGER values. *)
Definition int_in (vs : list Z) (x : Z) : bool := existsb (Z.eqb x) vs.

(** The order of a UNIQUE index: rows are sorted by the indexed columns,
    TEXT compared byte by byte (collation BINARY), rows that are equal
    there stay in rowid order.  An insertion sort that keeps that order. *)
Fixpoint insert_in_order {A : Type} (leb : A -> A -> bool) (x : A) (l : list A)
    : list A :=
  match l with
  | [] => [x]
  | y :: rest => if leb x y then x :: l else y :: insert_in_order leb x rest
  end.

Fixpoint index_order {A : Type} (leb : A -> A -> bool) (l : list A) : list A :=
  match l with
  | [] => []
  | x :: rest => insert_in_order leb x (index_order leb rest)
  end.

(** The index of UNIQUE(name). *)
Definition by_name (a b : EntityRow) : bool := String.leb (col_name a) (col_name b).

(** The index of UNIQUE(from_entity, to_entity, relationType). *)
Definition by_triple (a b : RelationRow) : bool :=
  match String.compare (from_entity a) (from_entity b) with
  | Lt => true
  | Gt => false
  | Eq =>
      match String.compare (to_entity a) (to_entity b) with
      | Lt => true
      | Gt => false
      | Eq => String.leb (col_relationType a) (col_relationType b)
      end
  end.

(** INSERT OR IGNORE INTO entities (name, entityType, observations)
    VALUES (?, ?, ?)   (the vector-enabled server names a fourth column,
    [embedding], which the model does not carry).
    The result is [Some rowid] when a row was inserted ([changes] = 1,
    [lastInsertRowid] = rowid) and [None] when the UNIQUE constraint on
    [name] made SQLite ignore the statement ([changes] = 0).  AUTOINCREMENT
    takes the next id from [sqlite_sequence] before the constraint is
    checked: an ignored insert uses up an id all the same. *)
Definition insert_or_ignore_entity (n ty obs : string) (db : Tables)
    : Tables * option Z :=
  let rowid := (sqlite_sequence db + 1)%Z in
  if existsb (name_is n) (tbl_entities db)
  then (mkTables (tbl_entities db) (tbl_relations db) rowid, None)
  else
    (mkTables (tbl_entities db ++ [mkEntityRow rowid n ty obs])
              (tbl_relations db) rowid,
     Some rowid).

Definition changes (result : option Z) : nat :=
  match result with
  | Some _ => 1
  | None => 0
  end.

(** Read by the source only when [changes] is positive. *)
Definition lastInsertRowid (result : option Z) : Z :=
  match result with
  | Some rowid => rowid
  | None => 0
  end.

(** INSERT OR IGNORE INTO relations (from_entity, to_entity, relationType)
    VALUES (?, ?, ?); the result is [changes]. *)
Definition insert_or_ignore_relation (f t ty : string) (db : Tables)
    : Tables * nat :=
  if existsb (same_triple f t ty) (tbl_relations db)
  then (db, 0)
  else (mkTables (tbl_entities db)
                 (tbl_relations db ++ [mkRelationRow f t ty])
                 (sqlite_sequence db),
        1).

(** SELECT ... FROM entities WHERE name = ?  with [.get]: the first
    matching row or [undefined]. *)
Definition select_entity_by_name (n : string) (db : Tables) : option EntityRow :=
  find (name_is n) (tbl_entities db).

(** SELECT name FROM entities WHERE id = ?  with [.get]. *)
Definition select_entity_by_id (i : Z) (db : Tables) : option EntityRow :=
  find (fun r => Z.eqb (id r) i) (tbl_entities db).

(** UPDATE entities SET observations = ? WHERE name = ? *)
Definition update_observations (obs n : string) (db : Tables) : Tables :=
  mkTables
    (map (fun r => if name_is n r
                   then mkEntityRow (id r) (col_name r) (col_entityType r) obs
                   else r)
         (tbl_entities db))
    (tbl_relations db) (sqlite_sequence db).

(** DELETE FROM entities WHERE name = ? *)
Definition delete_entity (n : string) (db : Tables) : Tables :=
  mkTables (filter (fun r => negb (name_is n r)) (tbl_entities db))
           (tbl_relations db) (sqlite_sequence db).

(** DELETE FROM relations WHERE from_entity = ? OR to_entity = ? *)
Definition delete_relations_touching (n1 n2 : string) (db : Tables) : Tables :=
  mkTables (tbl_entities db)
           (filter (fun r => negb (String.eqb (from_entity r) n1
                                   || String.eqb (to_entity r) n2))
                   (tbl_relations db))
           (sqlite_sequence db).

(** DELETE FROM relations
    WHERE from_entity = ? AND to_entity = ? AND relationType = ? *)
Definition delete_relation (f t ty : string) (db : Tables) : Tables :=
  mkTables (tbl_entities db)
           (filter (fun r => negb (same_triple f t ty r)) (tbl_relations db))
           (sqlite_sequence db).

(** SELECT * FROM entities WHERE name IN (...): SQLite looks the values up
    in the index of UNIQUE(name), the rows come out in the order of that
    index. *)
Definition select_entities_named (names : list string) (db : Tables)
    : list EntityRow :=
  index_order by_name
    (filter (fun r => text_in names (col_name r)) (tbl_entities db)).

(** SELECT id, name, entityType, observations FROM entities WHERE id IN (...):
    looked up by rowid, the rows come out in rowid order. *)
Definition select_entities_with_id (ids : list Z) (db : Tables) : list EntityRow :=
  filter (fun r => int_in ids (id r)) (tbl_entities db).

(** SELECT * FROM relations
    WHERE from_entity IN (...) AND to_entity IN (...): answered from the
    index of the UNIQUE constraint, in the order of that index. *)
Definition select_relations_between (names1 names2 : list string) (db : Tables)
    : list RelationRow :=
  index_order by_triple
    (filter (fun r => text_in names1 (from_entity r) && text_in names2 (to_entity r))
            (tbl_relations db)).

(** SQLite's [LOWER(x)]: folds A-Z, leaves every other byte. *)
Definition LOWER (x : string) : string := JS.toLowerCase x.

(** [LIKE] takes its operands as C strings: the text up to the first
    NUL. *)
Fixpoint c_string (s : string) : string :=
  match s with
  | EmptyString => EmptyString
  | String c s' => if Ascii.eqb c zero then EmptyString else String c (c_string s')
  end.

(** The bytes of a UTF-8 character: a lead byte (11xxxxxx) and the
    continuation bytes (10xxxxxx) after it. *)
Definition lead_byte (c : ascii) : bool := (192 <=? nat_of_ascii c)%nat.

Definition continuation_byte (c : ascii) : bool :=
  ((128 <=? nat_of_ascii c) && (nat_of_ascii c <? 192))%nat.

Fixpoint skip_continuation (x : string) : string :=
  match x with
  | EmptyString => EmptyString
  | String c x' => if continuation_byte c then skip_continuation x' else x
  end.

(** The text after the character that starts with the byte [d]. *)
Definition after_character (d : ascii) (x' : string) : string :=
  if lead_byte d then skip_continuation x' else x'.

(** The loop of [%] in the comparison of [LIKE]: [rest] is the comparison
    of what follows [%] in the pattern, tried at the start of every
    character of the text and at its end; [skipping] tells that the bytes
    passed over last belong to a character that began with a lead byte. *)
Fixpoint like_any (rest : string -> bool) (skipping : bool) (t : string) : bool :=
  match t with
  | EmptyString => rest EmptyString
  | String d t' =>
      if skipping && continuation_byte d then like_any rest true t'
      else rest t || like_any rest (lead_byte d) t'
  end.

(** The comparison of [LIKE] without ESCAPE: [%] matches any run of
    characters, [_] any single character, letters match without regard to
    ASCII case. *)
Fixpoint like_match (pattern x : string) {struct pattern} : bool :=
  match pattern with
  | EmptyString =>
      match x with
      | EmptyString => true
      | String _ _ => false
      end
  | String c p' =>
      if Ascii.eqb c "%" then like_any (like_match p') false x
      else
        match x with
        | EmptyString => false
        | String d x' =>
            if Ascii.eqb c "_" then like_match p' (after_character d x')
            else Ascii.eqb (JS.lower_char c) (JS.lower_char d) && like_match p' x'
        end
  end.

(** [x LIKE pattern]: a pattern of more than
    SQLITE_MAX_LIKE_PATTERN_LENGTH bytes raises. *)
Definition SQLITE_MAX_LIKE_PATTERN_LENGTH : Z := 50000.

Definition like (pattern x : string) : Error + bool :=
  if (SQLITE_MAX_LIKE_PATTERN_LENGTH <? Z.of_nat (String.length pattern))%Z
  then inl (SqliteError "LIKE or GLOB pattern too complex")
  else inr (like_match (c_string pattern) (c_string x)).

(** [a OR b] in a WHERE clause: [b] is not evaluated when [a] holds. *)
Definition or_else (a : Error + bool) (b : Error + bool) : Error + bool :=
  match a with
  | inl e => inl e
  | inr true => inr true
  | inr false => b
  end.

(** A scan that keeps the rows on which the WHERE clause holds, and
    raises where the clause raises. *)
Fixpoint scan_where {A : Type} (clause : A -> Error + bool) (rows : list A)
    : Error + list A :=
  match rows with
  | [] => inr []
  | r :: rest =>
      match clause r with
      | inl e => inl e
      | inr keep =>
          match scan_where clause rest with
          | inl e => inl e
          | inr l => inr (if keep then r :: l else l)
          end
      end
  end.

(** SELECT * FROM entities
    WHERE LOWER(name) LIKE ? OR LOWER(entityType) LIKE ?
       OR LOWER(observations) LIKE ? *)
Definition select_entities_like (p1 p2 p3 : string) (db : Tables)
    : Error + list EntityRow :=
  scan_where
    (fun r => or_else (like p1 (LOWER (col_name r)))
                (or_else (like p2 (LOWER (col_entityType r)))
                         (like p3 (LOWER (col_observations r)))))
    (tbl_entities db).

(** [LIMIT k]: a negative [k] puts no bound on the number of rows. *)
Definition limit {A : Type} (k : Z) (rows : list A) : list A :=
  if (k <? 0)%Z then rows else firstn (Z.to_nat k) rows.

End Sql.

(** Binding the arguments of a statement, and preparing one whose text has
    a placeholder for each value of a list. *)
Definition bound {S : Type} (vs : list Sql.Value) : M S unit :=
  attempt (fun _ => Sql.bind_parameters vs).

Definition prepared {S : Type} (placeholders : nat) : M S unit :=
  attempt (fun _ => Sql.prepare_placeholders placeholders).

(** The inline expression
    [e.observations ? e.observations.split("|||") : []]
    with which every reader of the [observations] column decodes it. *)
Definition splitObservations (text : string) : list string :=
  if JS.truthy text then JS.split "|||" text else [].

(** The object built from a row by the [map] callbacks of the readers. *)
Definition rowToEntity (e : Sql.EntityRow) : Entity :=
  mkEntity (Sql.col_name e) (Sql.col_entityType e)
           (splitObservations (Sql.col_observations e)).

Definition rowToRelation (r : Sql.RelationRow) : Relation :=
  mkRelation (Sql.from_entity r) (Sql.to_entity r) (Sql.col_relationType r).

(** ** The lexical-only server (second program of the source) *)
Module Basic.

Import Sql.

(** The [try]/[catch] around the two scans turns any exception into the
    empty graph; the second scan is not started when the first raises. *)
Definition loadGraph (c : Storage) : M Tables KnowledgeGraph :=
  try_catch
    (es <- attempt (select_all_entities c) ;;
     rs <- attempt (select_all_relations c) ;;
     ret (mkGraph (map rowToEntity es) (map rowToRelation rs)))
    (fun _ => ret emptyGraph).

Definition createEntities (es : list Entity) : M Tables (list Entity) :=
  forPush
    (fun entity =>
       result <- run (insert_or_ignore_entity
                        (name entity) (entityType entity)
                        (JS.join "|||" (observations entity))) ;;
       if (0 <? changes result)%nat then ret (Some entity) else ret None)
    es [].

Definition createRelations (rs : list Relation) : M Tables (list Relation) :=
  forPush
    (fun relation =>
       result <- run (insert_or_ignore_relation
                        (from relation) (to relation) (relationType relation)) ;;
       if (0 <? result)%nat then ret (Some relation) else ret None)
    rs [].

(** The callback that [addObservations] maps over its input. *)
Definition addObservationsTo (o : ObservationInput) : M Tables ObservationResult :=
  entity <- query (select_entity_by_name (entityName o)) ;;
  match entity with
  | None => throw (EntityNotFound (entityName o))
  | Some row =>
      let existingObservations := splitObservations (col_observations row) in
      let newObservations :=
        filter (fun content => negb (JS.includes existingObservations content))
               (contents o) in
      (if (0 <? length newObservations)%nat
       then
         let allObservations := (existingObservations ++ newObservations)%list in
         exec (update_observations (JS.join "|||" allObservations) (entityName o))
       else ret tt) ;;;
      ret (mkResult (entityName o) newObservations)
  end.

(** [observations.map((o) => ...)]: the first callback that throws ends
    the operation, the items after it are not looked at. *)
Definition addObservations (obs : list ObservationInput)
    : M Tables (list ObservationResult) :=
  mapM addObservationsTo obs.

Definition deleteEntities (entityNames : list string) : M Tables unit :=
  forEach
    (fun entityName =>
       exec (delete_entity entityName) ;;;
       exec (delete_relations_touching entityName entityName))
    entityNames.

Definition deleteObservations (deletions : list Deletion) : M Tables unit :=
  forEach
    (fun d =>
       entity <- query (select_entity_by_name (del_entityName d)) ;;
       match entity with
       | Some row =>
           let existingObservations := splitObservations (col_observations row) in
           let filteredObservations :=
             filter (fun o => negb (JS.includes (del_observations d) o))
                    existingObservations in
           exec (update_observations (JS.join "|||" filteredObservations)
                                     (del_entityName d))
       | None => ret tt
       end)
    deletions.

Definition deleteRelations (rs : list Relation) : M Tables unit :=
  forEach
    (fun relation =>
       exec (delete_relation (from relation) (to relation) (relationType relation)))
    rs.

Definition readGraph (c : Storage) : M Tables KnowledgeGraph := loadGraph c.

(** "Very basic search function".  The statement for the relations has two
    placeholders for every entity found. *)
Definition searchNodes (q : string) : M Tables KnowledgeGraph :=
  let lowerQuery := JS.toLowerCase q in
  let pattern := "%" ++ lowerQuery ++ "%" in
  es <- attempt (select_entities_like pattern pattern pattern) ;;
  let entityNames := map col_name es in
  rs <- (if (0 <? length entityNames)%nat
         then
           prepared (length entityNames + length entityNames) ;;;
           query (select_relations_between entityNames entityNames)
         else ret []) ;;
  ret (mkGraph (map rowToEntity es) (map rowToRelation rs)).

Definition openNodes (names : list string) : M Tables KnowledgeGraph :=
  if (length names =? 0)%nat then ret emptyGraph
  else
    prepared (length names) ;;;
    es <- query (select_entities_named names) ;;
    prepared (length names + length names) ;;;
    rs <- query (select_relations_between names names) ;;
    ret (mkGraph (map rowToEntity es) (map rowToRelation rs)).

End Basic.

(** ** The vector-enabled server (first program of the source) *)
Module Enhanced.

Import Sql.

Section Model.

(** The embedding model and the distance of the [vec0] index are outside
    the program: [generateEmbedding] is the method of that name, a function
    of its text which may throw; [distance] and [dist_leb] are the distance
    column computed by the index and the order [ORDER BY distance] sorts
    by. *)
Variable Embedding : Type.
Variable generateEmbedding : string -> Error + Embedding.
Variable Distance : Type.
Variable distance : Embedding -> Embedding -> Distance.
Variable dist_leb : Distance -> Distance -> bool.

(** A row of [entities_vec]: entity_id INTEGER PRIMARY KEY, embedding. *)
Record VecRow := mkVecRow {
  entity_id : Z;
  embedding : Embedding
}.

(** The work a detached closure still has to do once it has awaited its
    embedding.  The text to embed is computed before the closure first
    awaits, so the task carries it. *)
Inductive Task : Type :=
| StoreEmbedding (rowid : Z) (combinedText : string)
    (* spawned by createEntities *)
| RefreshEmbedding (rowid : Z) (combinedText : string).
    (* spawned by addObservations *)

Record Store := mkStore {
  tables : Tables;
  entities_vec : list VecRow;
  tasks : list Task
}.

Definition emptyStore : Store := mkStore emptyTables [] [].

(** Statements on [entities] and [relations] act on the [tables] part. *)
Definition onTables {A : Type} (q : Tables -> Tables * A) (s : Store) : Store * A :=
  let (db, a) := q (tables s) in (mkStore db (entities_vec s) (tasks s), a).

Definition setTables (q : Tables -> Tables) (s : Store) : Store :=
  mkStore (q (tables s)) (entities_vec s) (tasks s).

Definition ofTables {A : Type} (q : Tables -> A) (s : Store) : A := q (tables s).

Definition spawn (t : Task) (s : Store) : Store :=
  mkStore (tables s) (entities_vec s) (tasks s ++ [t]).

(** [embedding.buffer]: the [ArrayBuffer] under a [Float32Array]. *)
Definition buffer (e : Embedding) : Value := ArrayBufferValue.

(** INSERT INTO entities_vec (entity_id, embedding) VALUES (?, ?):
    raises on a second row for the same primary key. *)
Definition insert_vec (i : Z) (e : Embedding) (s : Store) : Error + Store :=
  if existsb (fun r => Z.eqb (entity_id r) i) (entities_vec s)
  then inl (SqliteError "UNIQUE constraint failed")
  else inr (mkStore (tables s) (entities_vec s ++ [mkVecRow i e]) (tasks s)).

(** UPDATE entities_vec SET embedding = ? WHERE entity_id = ? *)
Definition update_vec (e : Embedding) (i : Z) (s : Store) : Store :=
  mkStore (tables s)
          (map (fun r => if Z.eqb (entity_id r) i then mkVecRow i e else r)
               (entities_vec s))
          (tasks s).

(** DELETE FROM entities_vec WHERE entity_id = ? *)
Definition delete_vec (i : Z) (s : Store) : Store :=
  mkStore (tables s)
          (filter (fun r => negb (Z.eqb (entity_id r) i)) (entities_vec s))
          (tasks s).

(** [ORDER BY distance]: a stable insertion sort on the distance column. *)
Fixpoint insert_by_distance (x : Z * Distance) (l : list (Z * Distance))
    : list (Z * Distance) :=
  match l with
  | [] => [x]
  | y :: rest =>
      if dist_leb (snd x) (snd y) then x :: l
      else y :: insert_by_distance x rest
  end.

Fixpoint order_by_distance (l : list (Z * Distance)) : list (Z * Distance) :=
  match l with
  | [] => []
  | x :: rest => insert_by_distance x (order_by_distance rest)
  end.

(** Modelled from the spec: the [vec0] index and its [vec_search] come
    from the sqlite-vec extension, which is not part of the repository;
    the specification gives the contract, [nearest(queryVector, k)]: pairs
    (id, distance), ascending by distance, at most [k] of them, none for
    an empty index.
    SELECT entity_id, distance FROM entities_vec
    WHERE vec_search(embedding, ?) ORDER BY distance LIMIT ?
    The statement with its two arguments stands for that operation of the
    index: the index gives every row its distance to the query vector, the
    statement sorts by it and keeps the first [k] rows. *)
Definition vec_search (q : Embedding) (k : Z) (s : Store) : list (Z * Distance) :=
  limit k
    (order_by_distance
       (map (fun r => (entity_id r, distance (embedding r) q)) (entities_vec s))).

Definition loadGraph (c : Storage) : M Store KnowledgeGraph :=
  try_catch
    (es <- attempt (ofTables (select_all_entities c)) ;;
     rs <- attempt (ofTables (select_all_relations c)) ;;
     ret (mkGraph (map rowToEntity es) (map rowToRelation rs)))
    (fun _ => ret emptyGraph).

(** The fourth value bound to the INSERT is the [ArrayBuffer] of a fresh
    [Float32Array], not the array: the driver refuses it. *)
Definition createEntities (es : list Entity) : M Store (list Entity) :=
  forPush
    (fun entity =>
       let placeholderEmbeddingBuffer := ArrayBufferValue in
       bound [TextValue (name entity); TextValue (entityType entity);
              TextValue (JS.join "|||" (observations entity));
              placeholderEmbeddingBuffer] ;;;
       result <- run (onTables (insert_or_ignore_entity
                                  (name entity) (entityType entity)
                                  (JS.join "|||" (observations entity)))) ;;
       if (0 <? changes result)%nat
       then
         let combinedText := name entity ++ " " ++ JS.join " " (observations entity) in
         exec (spawn (StoreEmbedding (lastInsertRowid result) combinedText)) ;;;
         ret (Some entity)
       else ret None)
    es [].

Definition createRelations (rs : list Relation) : M Store (list Relation) :=
  forPush
    (fun relation =>
       result <- run (onTables (insert_or_ignore_relation
                                  (from relation) (to relation)
                                  (relationType relation))) ;;
       if (0 <? result)%nat then ret (Some relation) else ret None)
    rs [].

(** The callback that [addObservations] maps over its input. *)
Definition addObservationsTo (o : ObservationInput) : M Store ObservationResult :=
  entityRow <- query (ofTables (select_entity_by_name (entityName o))) ;;
  match entityRow with
  | None => throw (EntityNotFound (entityName o))
  | Some row =>
      let existingObservations := splitObservations (col_observations row) in
      let newObservations :=
        filter (fun content => negb (JS.includes existingObservations content))
               (contents o) in
      if (0 <? length newObservations)%nat
      then
        let allObservations := (existingObservations ++ newObservations)%list in
        exec (setTables (update_observations (JS.join "|||" allObservations)
                                             (entityName o))) ;;;
        currentEntity <- query (ofTables (select_entity_by_id (id row))) ;;
        match currentEntity with
        | None => ret tt
        | Some current =>
            let combinedText := col_name current ++ " " ++ JS.join " " allObservations in
            exec (spawn (RefreshEmbedding (id row) combinedText))
        end ;;;
        ret (mkResult (entityName o) newObservations)
      else ret (mkResult (entityName o) [])
  end.

(** [Promise.all(observations.map(async (o) => ...))]: [map] calls the
    callback on every item, a throwing call only rejects its own promise;
    [Promise.all] then rejects with the first rejection. *)
Definition addObservations (obs : list ObservationInput)
    : M Store (list ObservationResult) :=
  promises <- mapM (fun o => async (addObservationsTo o)) obs ;;
  await (Promise_all promises).

Definition deleteEntities (entityNames : list string) : M Store unit :=
  forEach
    (fun entityName =>
       entityRow <- query (ofTables (select_entity_by_name entityName)) ;;
       match entityRow with
       | Some row => exec (delete_vec (id row))
       | None => ret tt
       end ;;;
       exec (setTables (delete_entity entityName)) ;;;
       exec (setTables (delete_relations_touching entityName entityName)))
    entityNames.

Definition deleteObservations (deletions : list Deletion) : M Store unit :=
  forEach
    (fun d =>
       entity <- query (ofTables (select_entity_by_name (del_entityName d))) ;;
       match entity with
       | Some row =>
           let existingObservations := splitObservations (col_observations row) in
           let filteredObservations :=
             filter (fun o => negb (JS.includes (del_observations d) o))
                    existingObservations in
           exec (setTables (update_observations
                              (JS.join "|||" filteredObservations)
                              (del_entityName d)))
       | None => ret tt
       end)
    deletions.

Definition deleteRelations (rs : list Relation) : M Store unit :=
  forEach
    (fun relation =>
       exec (setTables (delete_relation (from relation) (to relation)
                                        (relationType relation))))
    rs.

Definition readGraph (c : Storage) : M Store KnowledgeGraph := loadGraph c.

(** The statement on the index is run as [.all(queryEmbedding.buffer, topK)]:
    its first argument is an [ArrayBuffer].  The statement that hydrates the
    ids has a placeholder for each of them, the one for the relations two
    for each entity found. *)
Definition searchNodes (q : string) (topK : Z) : M Store KnowledgeGraph :=
  queryEmbedding <- await (generateEmbedding q) ;;
  bound [buffer queryEmbedding; IntegerValue topK] ;;;
  similarEntityIds <- query (vec_search queryEmbedding topK) ;;
  if (length similarEntityIds =? 0)%nat then ret emptyGraph
  else
    let entityIds := map fst similarEntityIds in
    prepared (length entityIds) ;;;
    es <- query (ofTables (select_entities_with_id entityIds)) ;;
    let entityNames := map col_name es in
    rs <- (if (0 <? length entityNames)%nat
           then
             prepared (length entityNames + length entityNames) ;;;
             query (ofTables (select_relations_between entityNames entityNames))
           else ret []) ;;
    ret (mkGraph (map rowToEntity es) (map rowToRelation rs)).

(** [topK: number = 5]; the tool surface never passes it. *)
Definition searchNodesDefault (q : string) : M Store KnowledgeGraph :=
  searchNodes q 5.

Definition openNodes (names : list string) : M Store KnowledgeGraph :=
  if (length names =? 0)%nat then ret emptyGraph
  else
    prepared (length names) ;;;
    es <- query (ofTables (select_entities_named names)) ;;
    prepared (length names + length names) ;;;
    rs <- query (ofTables (select_relations_between names names)) ;;
    ret (mkGraph (map rowToEntity es) (map rowToRelation rs)).

(** The statements of the two closures, which run inside their [try]. *)
Definition insert_vec_row (i : Z) (e : Embedding) : M Store unit :=
  fun s =>
    match insert_vec i e s with
    | inl err => (s, inl err)
    | inr s' => (s', inr tt)
    end.

(** The rest of a detached closure, from its [await] on.  Both closures
    first run UPDATE entities SET embedding = ? WHERE id = ? with
    [embedding.buffer], an [ArrayBuffer]; the statement itself would change
    no column of the model.  Whatever is thrown is caught and logged. *)
Definition runTask (t : Task) (s : Store) : Store :=
  fst (try_catch
         (match t with
          | StoreEmbedding rowid text =>
              embedding <- await (generateEmbedding text) ;;
              bound [buffer embedding; IntegerValue rowid] ;;;
              bound [IntegerValue rowid; buffer embedding] ;;;
              insert_vec_row rowid embedding
          | RefreshEmbedding rowid text =>
              embedding <- await (generateEmbedding text) ;;
              bound [buffer embedding; IntegerValue rowid] ;;;
              bound [buffer embedding; IntegerValue rowid] ;;;
              exec (update_vec embedding rowid)
          end)
         (fun _ => ret tt)
         s).

(** The event loop resumes the [n]-th pending closure. *)
Definition resume (n : nat) (s : Store) : Store :=
  match nth_error (tasks s) n with
  | None => s
  | Some t =>
      runTask t (mkStore (tables s) (entities_vec s)
                         (firstn n (tasks s) ++ skipn (S n) (tasks s)))
  end.

End Model.

Arguments entity_id {Embedding} _.
Arguments embedding {Embedding} _.
Arguments tables {Embedding} _.
Arguments entities_vec {Embedding} _.
Arguments tasks {Embedding} _.
Arguments mkStore {Embedding} _ _ _.
Arguments mkVecRow {Embedding} _ _.
Arguments emptyStore {Embedding}.
Arguments onTables {Embedding A} _ _.
Arguments setTables {Embedding} _ _.
Arguments ofTables {Embedding A} _ _.
Arguments spawn {Embedding} _ _.
Arguments buffer {Embedding} _.
Arguments insert_vec {Embedding} _ _ _.
Arguments insert_vec_row {Embedding} _ _ _.
Arguments update_vec {Embedding} _ _ _.
Arguments delete_vec {Embedding} _ _.
Arguments insert_by_distance {Distance} _ _ _.
Arguments order_by_distance {Distance} _ _.
Arguments vec_search {Embedding Distance} _ _ _ _ _.
Arguments loadGraph {Embedding} _.
Arguments createEntities {Embedding} _.
Arguments createRelations {Embedding} _.
Arguments addObservationsTo {Embedding} _.
Arguments addObservations {Embedding} _.
Arguments deleteEntities {Embedding} _.
Arguments deleteObservations {Embedding} _.
Arguments deleteRelations {Embedding} _.
Arguments readGraph {Embedding} _.
Arguments searchNodes {Embedding} _ {Distance} _ _ _ _.
Arguments searchNodesDefault {Embedding} _ {Distance} _ _ _.
Arguments openNodes {Embedding} _.
Arguments runTask {Embedding} _ _ _.
Arguments resume {Embedding} _ _ _.

End Enhanced.

(** ** Vocabulary of the statements *)

(** The string holds no ['|'], the character the separator is made of. *)
Fixpoint no_pipe (s : string) : bool :=
  match s with
  | EmptyString => true
  | String c s' => negb (Ascii.eqb c "|") && no_pipe s'
  end.

Definition all_no_pipe (l : list string) : Prop :=
  Forall (fun x => no_pipe x = true) l.

(** The constraints the schema puts on the [entities] table: [name] is
    UNIQUE, [id] is an AUTOINCREMENT primary key, so ids are distinct and
    none exceeds the recorded sequence value. *)
Definition unique_names (db : Sql.Tables) : Prop :=
  NoDup (map Sql.col_name (Sql.tbl_entities db)).

Definition unique_ids (db : Sql.Tables) : Prop :=
  NoDup (map Sql.id (Sql.tbl_entities db)).

Definition ids_in_sequence (db : Sql.Tables) : Prop :=
  Forall (fun r => (Sql.id r <= Sql.sqlite_sequence db)%Z) (Sql.tbl_entities db).

Record well_formed (db : Sql.Tables) : Prop := mkWellFormed {
  wf_names : unique_names db;
  wf_ids : unique_ids db;
  wf_sequence : ids_in_sequence db
}.

(** The graph a full read shows for the given tables. *)
Definition graphOf (db : Sql.Tables) : KnowledgeGraph :=
  mkGraph (map rowToEntity (Sql.tbl_entities db))
          (map rowToRelation (Sql.tbl_relations db)).

(** The observations a read shows for the entity called [n], if stored. *)
Definition observationsOf (n : string) (db : Sql.Tables) : option (list string) :=
  option_map (fun r => splitObservations (Sql.col_observations r))
             (Sql.select_entity_by_name n db).

(** Everything but the [relations] table is the same in both stores. *)
Definition only_relations_differ {Embedding : Type}
    (s s' : Enhanced.Store Embedding) : Prop :=
  Sql.tbl_entities (Enhanced.tables s') = Sql.tbl_entities (Enhanced.tables s)
  /\ Sql.sqlite_sequence (Enhanced.tables s') = Sql.sqlite_sequence (Enhanced.tables s)
  /\ Enhanced.entities_vec s' = Enhanced.entities_vec s
  /\ Enhanced.tasks s' = Enhanced.tasks s.

(** The tables an INSERT leaves for an entity whose name is new: one more
    row, with the next id. *)
Definition created (E : Entity) (db : Sql.Tables) : Sql.Tables :=
  let rowid := (Sql.sqlite_sequence db + 1)%Z in
  Sql.mkTables
    (Sql.tbl_entities db
     ++ [Sql.mkEntityRow rowid (name E) (entityType E)
           (JS.join "|||" (observations E))])
    (Sql.tbl_relations db) rowid.

(** The tables an ignored INSERT leaves: the rows are as they were, an id
    is used up. *)
Definition skipped (db : Sql.Tables) : Sql.Tables :=
  Sql.mkTables (Sql.tbl_entities db) (Sql.tbl_relations db)
               (Sql.sqlite_sequence db + 1)%Z.

(** A database of the vector-enabled server with the given tables, an
    empty index and no closure pending. *)
Definition holding {Embedding : Type} (db : Sql.Tables) : Enhanced.Store Embedding :=
  Enhanced.mkStore db [] [].


(** The list has no duplicate and none of its strings holds a ['|']. *)
Definition clean (l : list string) : Prop := NoDup l /\ all_no_pipe l.

(** The text [text] is what a writer stores for the clean list [l]. *)
Definition encodes (l : list string) (text : string) : Prop :=
  text = JS.join "|||" l /\ clean l.

(** Every stored observation text is the text of a clean list. *)
Definition observations_encoded (db : Sql.Tables) : Prop :=
  Forall (fun r => exists l, encodes l (Sql.col_observations r))
         (Sql.tbl_entities db).

(** A call of a mutating operation of the manager, or the event loop
    resuming a pending closure. *)
Inductive Call : Type :=
| CreateEntities (es : list Entity)
| CreateRelations (rs : list Relation)
| AddObservations (obs : list ObservationInput)
| DeleteEntities (names : list string)
| DeleteObservations (ds : list Deletion)
| DeleteRelations (rs : list Relation)
| Resume (n : nat).

Section Calls.

Context {Embedding : Type} (generateEmbedding : string -> Error + Embedding).

(** The store a call leaves, whether it returned or threw. *)
Definition perform (c : Call) (s : Enhanced.Store Embedding)
    : Enhanced.Store Embedding :=
  match c with
  | CreateEntities es => fst (Enhanced.createEntities es s)
  | CreateRelations rs => fst (Enhanced.createRelations rs s)
  | AddObservations obs => fst (Enhanced.addObservations obs s)
  | DeleteEntities names => fst (Enhanced.deleteEntities names s)
  | DeleteObservations ds => fst (Enhanced.deleteObservations ds s)
  | DeleteRelations rs => fst (Enhanced.deleteRelations rs s)
  | Resume n => Enhanced.resume generateEmbedding n s
  end.

Definition performAll (cs : list Call) (s : Enhanced.Store Embedding)
    : Enhanced.Store Embedding :=
  fold_left (fun s c => perform c s) cs s.

End Calls.

(** The same calls on the lexical server, which spawns no closure. *)
Definition performLexical (c : Call) (db : Sql.Tables) : Sql.Tables :=
  match c with
  | CreateEntities es => fst (Basic.createEntities es db)
  | CreateRelations rs => fst (Basic.createRelations rs db)
  | AddObservations obs => fst (Basic.addObservations obs db)
  | DeleteEntities names => fst (Basic.deleteEntities names db)
  | DeleteObservations ds => fst (Basic.deleteObservations ds db)
  | DeleteRelations rs => fst (Basic.deleteRelations rs db)
  | Resume _ => db
  end.

Definition performAllLexical (cs : list Call) (db : Sql.Tables) : Sql.Tables :=
  fold_left (fun db c => performLexical c db) cs db.

(** The observation lists a call supplies are free of duplicates and of
    ['|']. *)
Definition clean_call (c : Call) : Prop :=
  match c with
  | CreateEntities es => Forall (fun e => clean (observations e)) es
  | AddObservations obs => Forall (fun o => clean (contents o)) obs
  | _ => True
  end.

(** The match the specification describes for lexical search: the query,
    without regard to case, is a substring of the name, of the type, or of
    one of the observations. *)
Definition lexical_match (q : string) (e : Entity) : bool :=
  let lowerQuery := JS.toLowerCase q in
  JS.str_includes (JS.toLowerCase (name e)) lowerQuery
  || JS.str_includes (JS.toLowerCase (entityType e)) lowerQuery
  || existsb (fun o => JS.str_includes (JS.toLowerCase o) lowerQuery)
             (observations e).

(** The match the lexical server computes on a row once the wildcards of
    [LIKE] are out of the way: the query is a substring of the name, of the
    type, or of the stored observation text, each folded to lower case and
    read up to its first NUL. *)
Definition row_match (q : string) (r : Sql.EntityRow) : bool :=
  let lowerQuery := JS.toLowerCase q in
  JS.str_includes (Sql.c_string (JS.toLowerCase (Sql.col_name r))) lowerQuery
  || JS.str_includes (Sql.c_string (JS.toLowerCase (Sql.col_entityType r))) lowerQuery
  || JS.str_includes (Sql.c_string (JS.toLowerCase (Sql.col_observations r))) lowerQuery.

(** Every byte of the string is an ASCII character: the text has no
    letter outside A to Z that [toLowerCase] would change. *)
Fixpoint ascii_text (s : string) : bool :=
  match s with
  | EmptyString => true
  | String c s' => (nat_of_ascii c <? 128)%nat && ascii_text s'
  end.

(** The string holds no NUL character. *)
Fixpoint no_nul (s : string) : bool :=
  match s with
  | EmptyString => true
  | String c s' => negb (Ascii.eqb c zero) && no_nul s'
  end.

(** The string holds none of the wildcards of [LIKE]. *)
Fixpoint no_wildcard (s : string) : bool :=
  match s with
  | EmptyString => true
  | String c s' => negb (Ascii.eqb c "%") && negb (Ascii.eqb c "_") && no_wildcard s'
  end.

(** ** Concrete scenarios

    A toy embedding model for running the vector-enabled server on
    concrete inputs: the embedding of a text is its length, the distance of
    two embeddings the absolute difference. *)
Module Scenario.

Definition Embedding : Type := Z.
Definition generateEmbedding (text : string) : Error + Embedding :=
  inr (Z.of_nat (String.length text)).
Definition distance (a b : Embedding) : Z := Z.abs (a - b).
Definition dist_leb (a b : Z) : bool := (a <=? b)%Z.

Definition Store : Type := Enhanced.Store Embedding.

Definition A : Entity := mkEntity "A" "person" ["x"].
Definition B : Entity := mkEntity "B" "person" [].
Definition knows : Relation := mkRelation "A" "B" "knows".

(** A database that holds A with the observation "x". *)
Definition tablesA : Sql.Tables :=
  Sql.mkTables [Sql.mkEntityRow 1 "A" "person" "x"] [] 1.

Definition withA : Store := holding tablesA.

(** A database that holds A and B and the relation (A, B, "knows"). *)
Definition tablesAB : Sql.Tables :=
  Sql.mkTables [Sql.mkEntityRow 1 "A" "person" "x"; Sql.mkEntityRow 2 "B" "person" ""]
               [Sql.mkRelationRow "A" "B" "knows"] 2.

Definition cascade : Store := holding tablesAB.

(** createEntities([A]); addObservations([{A, ["x", "y"]}]) *)
Definition merge_calls : list Call :=
  [CreateEntities [A]; AddObservations [mkInput "A" ["x"; "y"]]].

(** An entity whose observation list repeats a string. *)
Definition twice : Entity := mkEntity "A" "person" ["x"; "x"].

(** An observation that contains the separator, and one that is empty. *)
Definition piped : Entity := mkEntity "P" "note" ["a|||b"].
Definition blank : Entity := mkEntity "Q" "note" [""].




(** The lexical server with one entity. *)
Definition ada : Entity := mkEntity "Ada" "person" ["likes tea"; "plays chess"].

Definition library : Sql.Tables := fst (Basic.createEntities [ada] Sql.emptyTables).

End Scenario.

(** ** Vocabulary of the further properties *)

(** An action of the vector-enabled server and one of the lexical server
    do the same to the two tables and return the same. *)
Definition agree {Embedding R : Type}
    (e : M (Enhanced.Store Embedding) R) (b : M Sql.Tables R) : Prop :=
  forall s, Enhanced.tables (fst (e s)) = fst (b (Enhanced.tables s))
            /\ snd (e s) = snd (b (Enhanced.tables s)).

(** The row [createRelations] inserts for a relation. *)
Definition relationRow (r : Relation) : Sql.RelationRow :=
  Sql.mkRelationRow (from r) (to r) (relationType r).

Definition relation_stored (db : Sql.Tables) (r : Relation) : bool :=
  existsb (Sql.same_triple (from r) (to r) (relationType r)) (Sql.tbl_relations db).

(** The row is the triple of one of the listed relations. *)
Definition row_listed (rs : list Relation) (row : Sql.RelationRow) : bool :=
  existsb (fun r => Sql.same_triple (from r) (to r) (relationType r) row) rs.

(** The UNIQUE constraint of the [relations] table. *)
Definition unique_relations (db : Sql.Tables) : Prop :=
  NoDup (Sql.tbl_relations db).

(** Every entity of [db'] is an entity of [db], and the observations a read
    shows for it in [db'] are among those it shows in [db]. *)
Definition observations_shrink (db db' : Sql.Tables) : Prop :=
  forall n,
    match observationsOf n db' with
    | None => observationsOf n db = None
    | Some l' => exists l, observationsOf n db = Some l /\ incl l' l
    end.

(** The deletion names no stored entity, or lists none of the observations
    of the entity it names. *)
Definition deletion_idle (db : Sql.Tables) (d : Deletion) : Prop :=
  match observationsOf (del_entityName d) db with
  | None => True
  | Some l => forall o, In o (del_observations d) -> ~ In o l
  end.

(** The row id a pending task will write its embedding under. *)
Definition task_rowid (t : Enhanced.Task) : Z :=
  match t with
  | Enhanced.StoreEmbedding rowid _ => rowid
  | Enhanced.RefreshEmbedding rowid _ => rowid
  end.

(** What the schema and the id sequence guarantee of a store: the
    constraints of the [entities] table, no relation stored twice, one
    embedding record per id at most, and no record and no pending task for
    an id that has not been given out yet. *)
Record consistent {Embedding : Type} (s : Enhanced.Store Embedding) : Prop :=
  mkConsistent {
    cons_entities : well_formed (Enhanced.tables s);
    cons_relations : unique_relations (Enhanced.tables s);
    cons_index : NoDup (map Enhanced.entity_id (Enhanced.entities_vec s));
    cons_index_ids :
      Forall (fun v => (Enhanced.entity_id v
                        <= Sql.sqlite_sequence (Enhanced.tables s))%Z)
             (Enhanced.entities_vec s);
    cons_tasks :
      Forall (fun t => (task_rowid t <= Sql.sqlite_sequence (Enhanced.tables s))%Z)
             (Enhanced.tasks s)
  }.

(** Of a list of entities, in order, the first of each name that is not
    among [seen]. *)
Fixpoint first_new (seen : list string) (es : list Entity) : list Entity :=
  match es with
  | [] => []
  | e :: rest =>
      if Sql.text_in seen (name e) then first_new seen rest
      else e :: first_new (seen ++ [name e]) rest
  end.

(** The rows [createEntities] inserts for a list of entities when the
    names [seen] are stored and the sequence stands at [seq]: every entity
    of the list uses up one id, whether its row is inserted or ignored. *)
Fixpoint inserted_rows (seen : list string) (seq : Z) (es : list Entity)
    : list Sql.EntityRow :=
  match es with
  | [] => []
  | e :: rest =>
      if Sql.text_in seen (name e) then inserted_rows seen (seq + 1) rest
      else
        Sql.mkEntityRow (seq + 1) (name e) (entityType e)
          (JS.join "|||" (observations e))
        :: inserted_rows (seen ++ [name e]) (seq + 1) rest
  end.


(** The WHERE clause of the lexical search on a row, for a pattern that is
    not too long. *)
Definition like_clause (pattern : string) (r : Sql.EntityRow) : bool :=
  Sql.like_match (Sql.c_string pattern) (Sql.c_string (Sql.LOWER (Sql.col_name r)))
  || Sql.like_match (Sql.c_string pattern)
       (Sql.c_string (Sql.LOWER (Sql.col_entityType r)))
  || Sql.like_match (Sql.c_string pattern)
       (Sql.c_string (Sql.LOWER (Sql.col_observations r))).

(** ** Further concrete stores and inputs *)

Module Example.

(** A database that holds A and B and no relation yet. *)
Definition pair : Scenario.Store :=
  holding (Sql.mkTables (Sql.tbl_entities Scenario.tablesAB) [] 2).

(** The row of A after createEntities([A]). *)
Definition rowA : Sql.EntityRow := Sql.mkEntityRow 1 "A" "person" "x".


Definition knows_back : Relation := mkRelation "B" "A" "knows".

(** Deletions that find nothing to delete: an observation A does not
    have, and an entity that does not exist. *)
Definition idle_deletions : list Deletion :=
  [mkDeletion "A" ["y"]; mkDeletion "Nobody" ["x"]].

Definition more : ObservationInput := mkInput "A" ["x"; "y"].

(** A database that holds A with the observation "x" and, in the index,
    the embedding of the text "A x". *)
Definition embedded : Scenario.Store :=
  Enhanced.mkStore Scenario.tablesA [Enhanced.mkVecRow 1 3%Z] [].

End Example.





(** * Properties *)

(** ** The loops of the monad *)
Section Loops.

Context {S A : Type}.

Lemma forEach_cons (body : A -> M S unit) x xs s :
  forEach body (x :: xs) s =
  match body x s with
  | (s', inl e) => (s', inl e)
  | (s', inr _) => forEach body xs s'
  end.
Proof. reflexivity. Qed.

(** A property of the state that every turn of a loop keeps is kept by the
    loop, whether it runs to its end or a turn throws. *)
Lemma forEach_preserves (P : S -> Prop) (body : A -> M S unit) xs :
  (forall x s, In x xs -> P s -> P (fst (body x s))) ->
  forall s, P s -> P (fst (forEach body xs s)).
Proof.
  induction xs as [|x xs IH]; intros Hbody s Hs; [exact Hs|].
  rewrite forEach_cons.
  pose proof (Hbody x s (or_introl eq_refl) Hs) as H1.
  destruct (body x s) as [s' [e|u]]; [exact H1|].
  apply IH; [|exact H1].
  intros y t Hy. apply Hbody. now right.
Qed.

Lemma forPush_preserves {B : Type} (P : S -> Prop) (body : A -> M S (option B)) xs :
  (forall x s, In x xs -> P s -> P (fst (body x s))) ->
  forall acc s, P s -> P (fst (forPush body xs acc s)).
Proof.
  induction xs as [|x xs IH]; intros Hbody acc s Hs; [exact Hs|].
  cbn [forPush]. unfold bind at 1.
  pose proof (Hbody x s (or_introl eq_refl) Hs) as H1.
  destruct (body x s) as [s' [e|u]]; [exact H1|].
  apply IH; [|exact H1].
  intros y t Hy. apply Hbody. now right.
Qed.

Lemma mapM_preserves {B : Type} (P : S -> Prop) (f : A -> M S B) xs :
  (forall x s, In x xs -> P s -> P (fst (f x s))) ->
  forall s, P s -> P (fst (mapM f xs s)).
Proof.
  induction xs as [|x xs IH]; intros Hf s Hs; [exact Hs|].
  cbn [mapM]. unfold bind at 1.
  pose proof (Hf x s (or_introl eq_refl) Hs) as H1.
  destruct (f x s) as [s' [e|y]]; [exact H1|].
  unfold bind.
  assert (H2 : P (fst (mapM f xs s'))).
  { apply IH; [|exact H1]. intros z t Hz. apply Hf. now right. }
  destruct (mapM f xs s') as [s'' [e|ys]]; exact H2.
Qed.

End Loops.

(** ** The encoding of observations: [join] then [split] *)

Lemma append_snoc_char cur c x : (cur ++ String c "") ++ x = cur ++ String c x.
Proof. induction cur as [|d cur IH]; simpl; [reflexivity | now rewrite IH]. Qed.

Lemma append_empty_r s : s ++ "" = s.
Proof. induction s as [|c s IH]; simpl; congruence. Qed.

Lemma prefix_sep_other c s : c <> "|"%char -> prefix "|||" (String c s) = false.
Proof.
  intros H. unfold prefix.
  destruct (ascii_dec "|" c) as [E|E]; [symmetry in E; contradiction | reflexivity].
Qed.

Lemma prefix_sep_here t : prefix "|||" ("|||" ++ t) = true.
Proof. destruct t; reflexivity. Qed.

Lemma split_from_sep cur t :
  JS.split_from "|||" 0 cur ("|||" ++ t) = cur :: JS.split_from "|||" 0 "" t.
Proof.
  pose proof (prefix_sep_here t) as H.
  change ("|||" ++ t) with (String "|" (String "|" (String "|" t))) in *.
  cbn [JS.split_from]. rewrite H. reflexivity.
Qed.

(** A piece without ['|'] is read up to the next separator. *)
Lemma split_from_piece x :
  no_pipe x = true ->
  forall cur t,
    JS.split_from "|||" 0 cur (x ++ "|||" ++ t)
    = (cur ++ x) :: JS.split_from "|||" 0 "" t.
Proof.
  induction x as [|c x IH]; intros Hx cur t.
  - rewrite append_empty_r. apply split_from_sep.
  - simpl in Hx. apply andb_prop in Hx as [Hc Hx].
    apply negb_true_iff, Ascii.eqb_neq in Hc.
    change (String c x ++ "|||" ++ t) with (String c (x ++ "|||" ++ t)).
    cbn [JS.split_from]. rewrite prefix_sep_other by assumption.
    rewrite IH by assumption. now rewrite append_snoc_char.
Qed.

Lemma split_from_last x :
  no_pipe x = true -> forall cur, JS.split_from "|||" 0 cur x = [cur ++ x].
Proof.
  induction x as [|c x IH]; intros Hx cur.
  - simpl. now rewrite append_empty_r.
  - simpl in Hx. apply andb_prop in Hx as [Hc Hx].
    apply negb_true_iff, Ascii.eqb_neq in Hc.
    cbn [JS.split_from]. rewrite prefix_sep_other by assumption.
    rewrite IH by assumption. now rewrite append_snoc_char.
Qed.

Lemma split_join l :
  all_no_pipe l -> l <> [] -> JS.split "|||" (JS.join "|||" l) = l.
Proof.
  unfold JS.split, all_no_pipe.
  induction l as [|x l IH]; intros Hl Hne; [congruence|].
  inversion Hl as [|? ? Hx Hl']; subst.
  destruct l as [|y l].
  - simpl. now rewrite split_from_last.
  - change (JS.join "|||" (x :: y :: l)) with (x ++ "|||" ++ JS.join "|||" (y :: l)).
    rewrite split_from_piece by assumption. simpl append at 1.
    f_equal. apply IH; [assumption | discriminate].
Qed.

Lemma truthy_append_sep x t : JS.truthy (x ++ "|||" ++ t) = true.
Proof. destruct x; reflexivity. Qed.

(** What a reader decodes from the text a writer stored for [l]: the list
    itself, except that the list holding only the empty string is stored as
    the empty text and read as no observation. *)
Lemma splitObservations_join l :
  all_no_pipe l ->
  splitObservations (JS.join "|||" l) = l
  \/ (l = [""] /\ splitObservations (JS.join "|||" l) = []).
Proof.
  intros Hl. unfold splitObservations.
  destruct l as [|x [|y l]].
  - now left.
  - destruct x as [|c x]; [right; now split|].
    left. cbn [JS.join JS.truthy]. now apply (split_join [String c x]).
  - left. change (JS.join "|||" (x :: y :: l))
      with (x ++ "|||" ++ JS.join "|||" (y :: l)).
    rewrite truthy_append_sep.
    now apply (split_join (x :: y :: l)).
Qed.

Lemma splitObservations_join_exact l :
  all_no_pipe l -> l <> [""] -> splitObservations (JS.join "|||" l) = l.
Proof.
  intros Hl Hne. destruct (splitObservations_join l Hl) as [H|[H _]]; [exact H|].
  contradiction.
Qed.

(** ** Decoding a stored text and encoding it again *)

Lemma split_from_not_nil sep s : forall k cur, JS.split_from sep k cur s <> [].
Proof.
  induction s as [|c s IH]; intros k cur; [discriminate|].
  cbn [JS.split_from]. destruct k as [|k]; [|apply IH].
  destruct (prefix sep (String c s)); [discriminate|apply IH].
Qed.

Lemma join_cons sep x l :
  l <> [] -> JS.join sep (x :: l) = x ++ sep ++ JS.join sep l.
Proof. destruct l; [congruence|reflexivity]. Qed.

Lemma prefix_sep_inv s : prefix "|||" s = true -> exists t, s = "|||" ++ t.
Proof.
  destruct s as [|c1 [|c2 [|c3 t]]]; cbn [prefix]; try discriminate.
  - destruct (ascii_dec "|" c1); discriminate.
  - destruct (ascii_dec "|" c1); [|discriminate].
    destruct (ascii_dec "|" c2); discriminate.
  - destruct (ascii_dec "|" c1) as [<-|]; [|discriminate].
    destruct (ascii_dec "|" c2) as [<-|]; [|discriminate].
    destruct (ascii_dec "|" c3) as [<-|]; [|discriminate].
    intros _. now exists t.
Qed.

Lemma join_split_from n :
  forall s, String.length s <= n ->
  forall cur, JS.join "|||" (JS.split_from "|||" 0 cur s) = cur ++ s.
Proof.
  induction n as [|n IH]; intros s Hlen cur.
  - destruct s; [|cbn in Hlen; lia]. cbn. now rewrite append_empty_r.
  - destruct s as [|c s']; [cbn; now rewrite append_empty_r|].
    destruct (prefix "|||" (String c s')) eqn:E.
    + destruct (prefix_sep_inv _ E) as [t Ht]. rewrite Ht.
      rewrite split_from_sep, join_cons by apply split_from_not_nil.
      rewrite IH; [reflexivity|].
      rewrite Ht in Hlen. cbn in Hlen. lia.
    + cbn [JS.split_from]. rewrite E.
      rewrite IH by (cbn in Hlen; lia). apply append_snoc_char.
Qed.

Lemma join_split_text text : JS.join "|||" (splitObservations text) = text.
Proof.
  unfold splitObservations.
  destruct text as [|c t]; [reflexivity|].
  cbn [JS.truthy]. unfold JS.split.
  now rewrite (join_split_from _ _ (le_n _)).
Qed.

(** Whatever text the [observations] column holds, decoding it and joining
    the pieces with the separator gives the text back, and the text of an
    observation list without ['|'] decodes to the list unless the list is
    the single empty string. *)
Theorem observation_text_round_trips :
  (forall text : string, JS.join "|||" (splitObservations text) = text)
  /\ (forall l : list string,
        forallb no_pipe l = true ->
        splitObservations (JS.join "|||" l) = match l with
                                               | [EmptyString] => []
                                               | _ => l
                                               end).
Proof.
  split; [exact join_split_text|].
  intros l Hl.
  assert (Hp : all_no_pipe l).
  { unfold all_no_pipe. apply Forall_forall. intros x Hx.
    rewrite forallb_forall in Hl. now apply Hl. }
  destruct (splitObservations_join l Hp) as [H|[-> H]]; [|exact H].
  rewrite H. destruct l as [|[|c x] [|y l]]; try reflexivity.
  discriminate H.
Qed.

(** ** Reading the graph *)

Lemma readGraph_run {Embedding : Type} (s : Enhanced.Store Embedding) :
  Enhanced.readGraph Sql.Healthy s = (s, inr (graphOf (Enhanced.tables s))).
Proof. reflexivity. Qed.

Lemma basic_readGraph_run (db : Sql.Tables) :
  Basic.readGraph Sql.Healthy db = (db, inr (graphOf db)).
Proof. reflexivity. Qed.

(** C9. Fail-safe read, on both servers.  When the scan of [entities]
    raises, and when it succeeds and the scan of [relations] raises,
    [readGraph] returns the empty graph, not the error and not the
    entities without the relations, and leaves the database as it is.
    When the storage serves both scans, [readGraph] returns one entity for
    every stored row, in table order, with the row's name and type and
    with observations whose text, joined with the separator, is the stored
    text (so a row that stores a list free of ['|'], other than the single
    empty string, is returned with that list), and one relation for every
    stored row, with its three columns. *)
Theorem readGraph_fail_safe :
  forall (Embedding : Type) (s : Enhanced.Store Embedding),
    (forall e : Error,
        Enhanced.readGraph (Sql.EntitiesUnreadable e) s = (s, inr (mkGraph [] []))
        /\ Basic.readGraph (Sql.EntitiesUnreadable e) (Enhanced.tables s)
           = (Enhanced.tables s, inr (mkGraph [] [])))
    /\ (forall e : Error,
          Enhanced.readGraph (Sql.RelationsUnreadable e) s = (s, inr (mkGraph [] []))
          /\ Basic.readGraph (Sql.RelationsUnreadable e) (Enhanced.tables s)
             = (Enhanced.tables s, inr (mkGraph [] [])))
    /\ (exists g,
          Enhanced.readGraph Sql.Healthy s = (s, inr g)
          /\ Basic.readGraph Sql.Healthy (Enhanced.tables s) = (Enhanced.tables s, inr g)
          /\ map name (entities g)
             = map Sql.col_name (Sql.tbl_entities (Enhanced.tables s))
          /\ map entityType (entities g)
             = map Sql.col_entityType (Sql.tbl_entities (Enhanced.tables s))
          /\ map (fun e => JS.join "|||" (observations e)) (entities g)
             = map Sql.col_observations (Sql.tbl_entities (Enhanced.tables s))
          /\ (forall (r : Sql.EntityRow) (l : list string),
                In r (Sql.tbl_entities (Enhanced.tables s)) ->
                Sql.col_observations r = JS.join "|||" l ->
                all_no_pipe l -> l <> [""] ->
                In (mkEntity (Sql.col_name r) (Sql.col_entityType r) l) (entities g))
          /\ relations g
             = map (fun r => mkRelation (Sql.from_entity r) (Sql.to_entity r)
                               (Sql.col_relationType r))
                   (Sql.tbl_relations (Enhanced.tables s))).
Proof.
  intros Embedding s. split; [|split].
  - intros e. split; reflexivity.
  - intros e. split; reflexivity.
  - exists (graphOf (Enhanced.tables s)).
    split; [apply readGraph_run|]. split; [apply basic_readGraph_run|].
    unfold graphOf; cbn [entities relations]. rewrite !map_map.
    split; [reflexivity|]. split; [reflexivity|].
    split.
    { apply map_ext. intros r. cbn [rowToEntity observations].
      apply join_split_text. }
    split; [|reflexivity].
    intros r l Hr Htext Hp Hne.
    apply in_map_iff. exists r. split; [|exact Hr].
    unfold rowToEntity. rewrite Htext.
    now rewrite splitObservations_join_exact.
Qed.

(** A database with two rows and a relation, read whole. *)
Lemma readGraph_fail_safe_witness :
  In (Sql.mkEntityRow 1 "A" "person" "x") (Sql.tbl_entities Scenario.tablesAB)
  /\ In Scenario.A
        (entities (graphOf (Enhanced.tables Scenario.cascade)))
  /\ Enhanced.readGraph Sql.Healthy Scenario.cascade
     = (Scenario.cascade,
        inr (mkGraph [Scenario.A; Scenario.B] [Scenario.knows])).
Proof.
  assert (Hin : In (Sql.mkEntityRow 1 "A" "person" "x")
                   (Sql.tbl_entities (Enhanced.tables Scenario.cascade)))
    by (left; reflexivity).
  assert (Hp : all_no_pipe ["x"]) by (repeat constructor).
  assert (Hne : ["x"] <> [""]) by discriminate.
  destruct (readGraph_fail_safe Scenario.Embedding Scenario.cascade)
    as (_ & _ & g & Hg & _ & _ & _ & _ & Hrows & _).
  pose proof (Hrows _ ["x"] Hin eq_refl Hp Hne) as HA.
  rewrite readGraph_run in Hg. injection Hg as <-.
  split; [exact Hin|]. split; [exact HA|]. reflexivity.
Defined.

(** ** Relations do not touch entities *)

Lemma insert_or_ignore_relation_entities f t ty db :
  Sql.tbl_entities (fst (Sql.insert_or_ignore_relation f t ty db)) = Sql.tbl_entities db
  /\ Sql.sqlite_sequence (fst (Sql.insert_or_ignore_relation f t ty db))
     = Sql.sqlite_sequence db.
Proof.
  unfold Sql.insert_or_ignore_relation.
  destruct (existsb _ _); split; reflexivity.
Qed.

Lemma only_relations_differ_refl {Embedding : Type} (s : Enhanced.Store Embedding) :
  only_relations_differ s s.
Proof. repeat split. Qed.

Lemma createRelations_frame {Embedding : Type} rs (s : Enhanced.Store Embedding) :
  only_relations_differ s (fst (Enhanced.createRelations rs s)).
Proof.
  unfold Enhanced.createRelations.
  apply forPush_preserves with (P := only_relations_differ s);
    [|apply only_relations_differ_refl].
  intros r t _ (He & Hq & Hv & Ht).
  unfold bind, run, Enhanced.onTables.
  pose proof (insert_or_ignore_relation_entities
                (from r) (to r) (relationType r) (Enhanced.tables t)) as [H1 H2].
  destruct (Sql.insert_or_ignore_relation _ _ _ _) as [db n]; cbn [fst] in *.
  destruct (0 <? n)%nat; cbn; unfold only_relations_differ; cbn;
    repeat split; congruence.
Qed.

Lemma deleteRelations_frame {Embedding : Type} rs (s : Enhanced.Store Embedding) :
  only_relations_differ s (fst (Enhanced.deleteRelations rs s)).
Proof.
  unfold Enhanced.deleteRelations.
  apply forEach_preserves with (P := only_relations_differ s);
    [|apply only_relations_differ_refl].
  intros r t _ (He & Hq & Hv & Ht).
  unfold exec, Enhanced.setTables, Sql.delete_relation, only_relations_differ.
  cbn. repeat split; assumption.
Qed.

(** C10. Frame property of the relation operations.  For every list of
    relations and every store, [createRelations] and [deleteRelations] leave
    the [entities] table (names, types, observation texts, ids), the id
    sequence, the vector table and the pending tasks as they were, so a
    read before and a read after show the same entities; only the
    [relations] table can differ. *)
Theorem relations_ops_frame :
  forall (Embedding : Type) (rs : list Relation) (s : Enhanced.Store Embedding),
    (only_relations_differ s (fst (Enhanced.createRelations rs s))
     /\ entities (graphOf (Enhanced.tables (fst (Enhanced.createRelations rs s))))
        = entities (graphOf (Enhanced.tables s)))
    /\ (only_relations_differ s (fst (Enhanced.deleteRelations rs s))
        /\ entities (graphOf (Enhanced.tables (fst (Enhanced.deleteRelations rs s))))
           = entities (graphOf (Enhanced.tables s))).
Proof.
  intros Embedding rs s. split.
  - pose proof (createRelations_frame rs s) as H. split; [exact H|].
    destruct H as (He & _). unfold graphOf; cbn [entities]. now rewrite He.
  - pose proof (deleteRelations_frame rs s) as H. split; [exact H|].
    destruct H as (He & _). unfold graphOf; cbn [entities]. now rewrite He.
Qed.

(** ** Deleting entities *)

Lemma filter_all {A : Type} (l : list A) : filter (fun _ => true) l = l.
Proof. induction l as [|x l IH]; simpl; congruence. Qed.

Lemma filter_twice {A : Type} (f g : A -> bool) (l : list A) :
  filter f (filter g l) = filter (fun x => g x && f x) l.
Proof.
  induction l as [|x l IH]; [reflexivity|].
  simpl. destruct (g x); simpl; [destruct (f x)|]; now rewrite IH.
Qed.

Lemma filter_map_comm {A B : Type} (f : A -> B) (p : B -> bool) (l : list A) :
  map f (filter (fun x => p (f x)) l) = filter p (map f l).
Proof.
  induction l as [|x l IH]; [reflexivity|].
  simpl. destruct (p (f x)); simpl; now rewrite IH.
Qed.

Lemma unique_names_same_row (l : list Sql.EntityRow) r1 r2 :
  NoDup (map Sql.col_name l) -> In r1 l -> In r2 l ->
  Sql.col_name r1 = Sql.col_name r2 -> r1 = r2.
Proof.
  induction l as [|x l IH]; intros Hnd H1 H2 Hn; [contradiction|].
  simpl in Hnd. inversion Hnd as [|? ? Hx Hl]; subst.
  destruct H1 as [->|H1], H2 as [->|H2]; auto.
  - exfalso. apply Hx. rewrite Hn. now apply in_map.
  - exfalso. apply Hx. rewrite <- Hn. now apply in_map.
Qed.

Lemma NoDup_map_filter {A B : Type} (g : A -> B) f (l : list A) :
  NoDup (map g l) -> NoDup (map g (filter f l)).
Proof.
  induction l as [|x l IH]; intros H; [constructor|].
  simpl in H. inversion H as [|? ? Hx Hl]; subst. simpl.
  destruct (f x); [|now apply IH].
  simpl. constructor; [|now apply IH].
  intros Hin. apply Hx. apply in_map_iff in Hin as (y & Hy & Hin).
  apply filter_In in Hin as [Hin _]. rewrite <- Hy. now apply in_map.
Qed.

Section DeleteEntities.

Context {Embedding : Type}.
Implicit Types s : Enhanced.Store Embedding.

(** One turn of the loop of [deleteEntities]. *)
Lemma deleteEntities_step n names s :
  Enhanced.deleteEntities (n :: names) s =
  Enhanced.deleteEntities names
    (Enhanced.setTables (Sql.delete_relations_touching n n)
       (Enhanced.setTables (Sql.delete_entity n)
          (match Sql.select_entity_by_name n (Enhanced.tables s) with
           | Some row => Enhanced.delete_vec (Sql.id row) s
           | None => s
           end))).
Proof.
  unfold Enhanced.deleteEntities at 1. rewrite forEach_cons.
  unfold bind, query, exec, Enhanced.ofTables.
  destruct (Sql.select_entity_by_name n (Enhanced.tables s)); reflexivity.
Qed.


Lemma deleteEntities_tables names s :
  Enhanced.tables (fst (Enhanced.deleteEntities names s)) =
  Sql.mkTables
    (filter (fun r => negb (Sql.text_in names (Sql.col_name r)))
            (Sql.tbl_entities (Enhanced.tables s)))
    (filter (fun r => negb (Sql.text_in names (Sql.from_entity r)
                            || Sql.text_in names (Sql.to_entity r)))
            (Sql.tbl_relations (Enhanced.tables s)))
    (Sql.sqlite_sequence (Enhanced.tables s)).
Proof.
  revert s. induction names as [|n names IH]; intros s.
  - cbn. rewrite !filter_all. now destruct (Enhanced.tables s).
  - rewrite deleteEntities_step, IH.
    assert (Ht : forall t, Enhanced.tables
               (match Sql.select_entity_by_name n (Enhanced.tables s) with
                | Some row => Enhanced.delete_vec (Sql.id row) s
                | None => s
                end) = t -> t = Enhanced.tables s).
    { intros t <-. now destruct (Sql.select_entity_by_name n (Enhanced.tables s)). }
    cbn [Enhanced.setTables Enhanced.tables Sql.delete_relations_touching
         Sql.delete_entity Sql.tbl_entities Sql.tbl_relations Sql.sqlite_sequence].
    rewrite (Ht _ eq_refl). rewrite !filter_twice. f_equal.
    + apply filter_ext. intros r. unfold Sql.name_is, Sql.text_in. cbn [existsb].
      now rewrite negb_orb.
    + apply filter_ext. intros r. unfold Sql.text_in. cbn [existsb].
      destruct (String.eqb (Sql.from_entity r) n), (String.eqb (Sql.to_entity r) n),
        (existsb (String.eqb (Sql.from_entity r)) names),
        (existsb (String.eqb (Sql.to_entity r)) names); reflexivity.
Qed.



End DeleteEntities.




(** ** Creating entities *)

Lemma store_eta {Embedding : Type} (s : Enhanced.Store Embedding) :
  Enhanced.mkStore (Enhanced.tables s) (Enhanced.entities_vec s) (Enhanced.tasks s) = s.
Proof. now destruct s. Qed.

Lemma find_none_existsb {A : Type} (f : A -> bool) l :
  existsb f l = false <-> find f l = None.
Proof.
  induction l as [|x l IH]; [now split|]. simpl.
  destruct (f x); simpl; [split; discriminate|exact IH].
Qed.

Lemma named_rows_at_most_one n (l : list Sql.EntityRow) :
  NoDup (map Sql.col_name l) -> length (filter (Sql.name_is n) l) <= 1.
Proof.
  induction l as [|x l IH]; intros Hnd; [simpl; lia|].
  simpl in Hnd. inversion Hnd as [|? ? Hx Hl]; subst. simpl.
  destruct (Sql.name_is n x) eqn:E; [|now apply IH].
  simpl. assert (filter (Sql.name_is n) l = []) as ->; [|simpl; lia].
  destruct (filter (Sql.name_is n) l) as [|y t] eqn:F; [reflexivity|].
  exfalso. apply Hx.
  assert (Hy : In y (filter (Sql.name_is n) l)) by (rewrite F; now left).
  apply filter_In in Hy as [Hy Hn]. unfold Sql.name_is in *.
  apply String.eqb_eq in E, Hn. rewrite E, <- Hn. now apply in_map.
Qed.

Lemma named_rows_exactly_one n (l : list Sql.EntityRow) :
  NoDup (map Sql.col_name l) -> existsb (Sql.name_is n) l = true ->
  length (filter (Sql.name_is n) l) = 1.
Proof.
  intros Hnd Hex. pose proof (named_rows_at_most_one n l Hnd) as Hle.
  apply existsb_exists in Hex as (x & Hx & Hn).
  assert (Hin : In x (filter (Sql.name_is n) l)) by (apply filter_In; now split).
  destruct (filter (Sql.name_is n) l); [contradiction|simpl in *; lia].
Qed.

Lemma named_rows_none n (l : list Sql.EntityRow) :
  existsb (Sql.name_is n) l = false -> filter (Sql.name_is n) l = [].
Proof.
  induction l as [|x l IH]; [reflexivity|].
  simpl. intros H. apply orb_false_iff in H as [H1 H2].
  rewrite H1. now apply IH.
Qed.

Lemma forPush_cons {S A B : Type} (body : A -> M S (option B)) x xs acc s :
  forPush body (x :: xs) acc s =
  match body x s with
  | (s', inl e) => (s', inl e)
  | (s', inr pushed) =>
      forPush body xs (match pushed with Some b => acc ++ [b] | None => acc end) s'
  end.
Proof. reflexivity. Qed.

(** The INSERT of [createEntities] on the lexical server. *)
Lemma basic_createEntities_turn (E : Entity) db :
  bind (run (Sql.insert_or_ignore_entity (name E) (entityType E)
               (JS.join "|||" (observations E))))
       (fun result =>
          if (0 <? Sql.changes result)%nat then ret (Some E) else ret None) db
  = if existsb (Sql.name_is (name E)) (Sql.tbl_entities db)
    then (skipped db, inr None)
    else (created E db, inr (Some E)).
Proof.
  unfold bind, run, Sql.insert_or_ignore_entity.
  destruct (existsb _ _); reflexivity.
Qed.

Lemma basic_createEntities_single E db :
  Basic.createEntities [E] db =
  if existsb (Sql.name_is (name E)) (Sql.tbl_entities db)
  then (skipped db, inr [])
  else (created E db, inr [E]).
Proof.
  unfold Basic.createEntities. rewrite forPush_cons. cbv beta.
  rewrite basic_createEntities_turn.
  destruct (existsb _ _); reflexivity.
Qed.

(** The vector-enabled [createEntities] binds an [ArrayBuffer] to its
    INSERT: the first entity of the list makes it throw, before any
    statement has run. *)
Lemma createEntities_throws {Embedding : Type} E es (s : Enhanced.Store Embedding) :
  Enhanced.createEntities (E :: es) s
  = (s, inl (TypeError
               "SQLite3 can only bind numbers, strings, bigints, buffers, and null")).
Proof. reflexivity. Qed.

Lemma createEntities_store {Embedding : Type} es (s : Enhanced.Store Embedding) :
  fst (Enhanced.createEntities es s) = s.
Proof. destruct es; reflexivity. Qed.

(** C5. Idempotence of entity creation: it holds on the lexical server and
    fails on the vector-enabled one.  On tables whose entity names are
    unique, for every entity E, the lexical [createEntities([E])] returns
    [E] when the name is new, and the empty list (leaving the rows as they
    are) when the name is already stored; a second [createEntities([E])]
    returns the empty list and changes no row, it only uses up an id of the
    sequence; after the two calls exactly one stored entity has E's name,
    also in the graph a read shows.  The vector-enabled [createEntities]
    throws a [TypeError] on every list that is not empty, whatever is
    stored, and stores nothing: its first call does not return [E]. *)
Theorem createEntities_idempotent :
  forall (E : Entity) (db : Sql.Tables),
    unique_names db ->
    (exists db1 r1,
        Basic.createEntities [E] db = (db1, inr r1)
        /\ Basic.createEntities [E] db1 = (skipped db1, inr [])
        /\ (Sql.select_entity_by_name (name E) db = None ->
            r1 = [E] /\ db1 = created E db)
        /\ (Sql.select_entity_by_name (name E) db <> None ->
            r1 = [] /\ db1 = skipped db)
        /\ length (filter (Sql.name_is (name E)) (Sql.tbl_entities (skipped db1))) = 1
        /\ length (filter (fun e => String.eqb (name e) (name E))
                          (entities (graphOf (skipped db1)))) = 1)
    /\ (forall (Embedding : Type) (es : list Entity) (s : Enhanced.Store Embedding),
          exists message,
            Enhanced.createEntities (E :: es) s = (s, inl (TypeError message))).
Proof.
  intros E db Hu. split; [|intros Embedding es s; eexists; apply createEntities_throws].
  assert (Hfind : forall l, existsb (Sql.name_is (name E)) l = false <->
                            find (Sql.name_is (name E)) l = None)
    by (intros l; apply find_none_existsb).
  assert (Hgraph : forall t,
             filter (fun e => String.eqb (name e) (name E)) (entities (graphOf t))
             = map rowToEntity (filter (Sql.name_is (name E)) (Sql.tbl_entities t))).
  { intros t. unfold graphOf. cbn [entities]. symmetry.
    exact (filter_map_comm rowToEntity (fun e => String.eqb (name e) (name E)) _). }
  rewrite basic_createEntities_single.
  destruct (existsb (Sql.name_is (name E)) (Sql.tbl_entities db)) eqn:Hex.
  - exists (skipped db), []. split; [reflexivity|].
    split; [rewrite basic_createEntities_single; cbn [skipped Sql.tbl_entities];
            rewrite Hex; reflexivity|].
    split; [intros Hnone; apply Hfind in Hnone; congruence|].
    split; [now split|].
    rewrite Hgraph, length_map. cbn [skipped Sql.tbl_entities].
    split; now apply named_rows_exactly_one.
  - exists (created E db), [E]. split; [reflexivity|].
    assert (Hnew : existsb (Sql.name_is (name E))
                     (Sql.tbl_entities (created E db)) = true).
    { cbn [created Sql.tbl_entities]. rewrite existsb_app.
      cbn [existsb]. unfold Sql.name_is at 2. cbn [Sql.col_name].
      rewrite String.eqb_refl. now rewrite orb_true_r. }
    split; [rewrite basic_createEntities_single, Hnew; reflexivity|].
    split; [now split|].
    split; [intros Hsome; exfalso; apply Hsome; now apply Hfind|].
    rewrite Hgraph, length_map.
    assert (Hlen : length (filter (Sql.name_is (name E))
                     (Sql.tbl_entities (skipped (created E db)))) = 1).
    { cbn [skipped created Sql.tbl_entities].
      rewrite filter_app, named_rows_none by exact Hex.
      cbn [filter app]. unfold Sql.name_is. cbn [Sql.col_name].
      now rewrite String.eqb_refl. }
    now split.
Qed.

(** Creating A twice in the fresh database, on either server. *)
Lemma createEntities_idempotent_witness :
  unique_names Sql.emptyTables
  /\ Basic.createEntities [Scenario.A] Sql.emptyTables
     = (Scenario.tablesA, inr [Scenario.A])
  /\ Basic.createEntities [Scenario.A] Scenario.tablesA
     = (skipped Scenario.tablesA, inr [])
  /\ exists message,
       Enhanced.createEntities [Scenario.A]
         (@Enhanced.emptyStore Scenario.Embedding)
       = (Enhanced.emptyStore, inl (TypeError message)).
Proof.
  assert (Hu : unique_names Sql.emptyTables) by constructor.
  split; [exact Hu|].
  destruct (createEntities_idempotent Scenario.A Sql.emptyTables Hu)
    as ((db1 & r1 & H1 & H2 & Hnew & _) & Hthrows).
  destruct (Hnew eq_refl) as [-> ->].
  split; [exact H1|]. split; [exact H2|].
  exact (Hthrows Scenario.Embedding [] Enhanced.emptyStore).
Defined.

(** ** Adding observations: one item *)

Section AddObservationsTo.

Context {Embedding : Type}.
Implicit Types s : Enhanced.Store Embedding.

Lemma addObservationsTo_result o s :
  snd (Enhanced.addObservationsTo o s) =
  match Sql.select_entity_by_name (entityName o) (Enhanced.tables s) with
  | None => inl (EntityNotFound (entityName o))
  | Some row =>
      inr (mkResult (entityName o)
             (filter (fun content =>
                        negb (JS.includes
                                (splitObservations (Sql.col_observations row))
                                content))
                     (contents o)))
  end.
Proof.
  unfold Enhanced.addObservationsTo, bind, query, Enhanced.ofTables.
  destruct (Sql.select_entity_by_name (entityName o) (Enhanced.tables s))
    as [row|]; [|reflexivity].
  cbv zeta.
  destruct (filter _ (contents o)) as [|c new] eqn:F; [reflexivity|].
  cbn [length Nat.ltb Nat.leb]. unfold exec. cbn [fst snd].
  destruct (Sql.select_entity_by_id _ _); reflexivity.
Qed.

Lemma addObservationsTo_tables o s :
  Enhanced.tables (fst (Enhanced.addObservationsTo o s)) =
  match Sql.select_entity_by_name (entityName o) (Enhanced.tables s) with
  | None => Enhanced.tables s
  | Some row =>
      let existing := splitObservations (Sql.col_observations row) in
      let new := filter (fun content => negb (JS.includes existing content))
                        (contents o) in
      if (0 <? length new)%nat
      then Sql.update_observations (JS.join "|||" (existing ++ new)%list)
                                   (entityName o) (Enhanced.tables s)
      else Enhanced.tables s
  end.
Proof.
  unfold Enhanced.addObservationsTo, bind, query, Enhanced.ofTables.
  destruct (Sql.select_entity_by_name (entityName o) (Enhanced.tables s))
    as [row|]; [|reflexivity].
  cbv zeta.
  destruct (0 <? length _)%nat; [|reflexivity].
  unfold exec. cbn [fst snd].
  destruct (Sql.select_entity_by_id _ _); reflexivity.
Qed.

Lemma addObservationsTo_vec o s :
  Enhanced.entities_vec (fst (Enhanced.addObservationsTo o s)) = Enhanced.entities_vec s.
Proof.
  unfold Enhanced.addObservationsTo, bind, query, Enhanced.ofTables.
  destruct (Sql.select_entity_by_name (entityName o) (Enhanced.tables s))
    as [row|]; [|reflexivity].
  cbv zeta.
  destruct (0 <? length _)%nat; [|reflexivity].
  unfold exec. cbn [fst snd].
  destruct (Sql.select_entity_by_id _ _); reflexivity.
Qed.

End AddObservationsTo.

(** ** Clean observation lists and their stored texts *)

Lemma clean_nil : clean [].
Proof. split; constructor. Qed.

Lemma clean_filter f l : clean l -> clean (filter f l).
Proof.
  intros [Hnd Hp]. split; [now apply NoDup_filter|].
  unfold all_no_pipe in *. rewrite Forall_forall in *.
  intros x Hx. apply Hp. now apply filter_In in Hx.
Qed.

Lemma includes_In l x : JS.includes l x = true <-> In x l.
Proof.
  unfold JS.includes. rewrite existsb_exists. split.
  - intros (y & Hy & E). apply String.eqb_eq in E. now subst.
  - intros H. exists x. split; [exact H|apply String.eqb_refl].
Qed.

(** The merge computed by [addObservations]. *)
Lemma clean_merge existing new :
  clean existing -> clean new ->
  clean (existing ++ filter (fun c => negb (JS.includes existing c)) new).
Proof.
  intros [Hnd1 Hp1] Hnew. destruct (clean_filter
    (fun c => negb (JS.includes existing c)) new Hnew) as [Hnd2 Hp2].
  split.
  - apply NoDup_app; [assumption|assumption|].
    intros a Ha Hf. apply filter_In in Hf as [_ Hf].
    apply negb_true_iff in Hf.
    apply includes_In in Ha. congruence.
  - apply Forall_app. now split.
Qed.

Lemma decoded_clean text :
  (exists l, encodes l text) -> clean (splitObservations text).
Proof.
  intros (l & -> & Hnd & Hp).
  destruct (splitObservations_join l Hp) as [->|[_ ->]]; [now split|apply clean_nil].
Qed.

Lemma encodes_join l : clean l -> exists l', encodes l' (JS.join "|||" l).
Proof. intros H. exists l. now split. Qed.

(** ** The statements keep the invariants of the [entities] table *)

Lemma update_observations_encoded text n db :
  (exists l, encodes l text) ->
  observations_encoded db ->
  observations_encoded (Sql.update_observations text n db).
Proof.
  intros Ht Hdb. unfold observations_encoded, Sql.update_observations in *.
  cbn [Sql.tbl_entities]. apply Forall_map.
  eapply Forall_impl; [|exact Hdb].
  intros r Hr. cbv beta. destruct (Sql.name_is n r); [exact Ht|exact Hr].
Qed.

Lemma insert_entity_encoded n ty text db :
  (exists l, encodes l text) ->
  observations_encoded db ->
  observations_encoded (fst (Sql.insert_or_ignore_entity n ty text db)).
Proof.
  intros Ht Hdb. unfold Sql.insert_or_ignore_entity. cbv zeta.
  destruct (existsb _ _); [exact Hdb|].
  unfold observations_encoded in *. cbn [fst Sql.tbl_entities].
  apply Forall_app. split; [exact Hdb|]. constructor; [exact Ht|constructor].
Qed.

Lemma select_entity_by_name_In n db row :
  Sql.select_entity_by_name n db = Some row ->
  In row (Sql.tbl_entities db) /\ Sql.col_name row = n.
Proof.
  unfold Sql.select_entity_by_name. intros H. apply find_some in H as [H1 H2].
  split; [exact H1|]. now apply String.eqb_eq in H2.
Qed.

Lemma encoded_row db row :
  observations_encoded db -> In row (Sql.tbl_entities db) ->
  exists l, encodes l (Sql.col_observations row).
Proof.
  unfold observations_encoded. rewrite Forall_forall. intros H Hin. now apply H.
Qed.

Lemma update_observations_names text n db :
  map Sql.col_name (Sql.tbl_entities (Sql.update_observations text n db))
  = map Sql.col_name (Sql.tbl_entities db)
  /\ map Sql.id (Sql.tbl_entities (Sql.update_observations text n db))
     = map Sql.id (Sql.tbl_entities db)
  /\ map Sql.col_entityType (Sql.tbl_entities (Sql.update_observations text n db))
     = map Sql.col_entityType (Sql.tbl_entities db).
Proof.
  unfold Sql.update_observations. cbn [Sql.tbl_entities]. rewrite !map_map.
  repeat split; apply map_ext; intros r; now destruct (Sql.name_is n r).
Qed.

Lemma update_observations_well_formed text n db :
  well_formed db -> well_formed (Sql.update_observations text n db).
Proof.
  intros [H1 H2 H3].
  destruct (update_observations_names text n db) as (Hn & Hi & _).
  split.
  - unfold unique_names. now rewrite Hn.
  - unfold unique_ids. now rewrite Hi.
  - unfold ids_in_sequence in *. rewrite Forall_forall in *.
    intros r Hr. cbn [Sql.update_observations Sql.sqlite_sequence].
    assert (In (Sql.id r) (map Sql.id (Sql.tbl_entities db))) as Hin
      by (rewrite <- Hi; now apply in_map).
    apply in_map_iff in Hin as (r0 & <- & Hr0). now apply H3.
Qed.

Lemma delete_entity_well_formed n db :
  well_formed db -> well_formed (Sql.delete_entity n db).
Proof.
  intros [H1 H2 H3]. unfold Sql.delete_entity. split.
  - unfold unique_names in *. cbn. now apply NoDup_map_filter.
  - unfold unique_ids in *. cbn. now apply NoDup_map_filter.
  - unfold ids_in_sequence in *. cbn. rewrite Forall_forall in *.
    intros r Hr. apply filter_In in Hr as [Hr _]. now apply H3.
Qed.

(** ** Every call keeps the invariants *)

Lemma well_formed_same_entities db db' :
  Sql.tbl_entities db' = Sql.tbl_entities db ->
  Sql.sqlite_sequence db' = Sql.sqlite_sequence db ->
  well_formed db -> well_formed db'.
Proof.
  intros He Hs [H1 H2 H3]. split.
  - unfold unique_names. now rewrite He.
  - unfold unique_ids. now rewrite He.
  - unfold ids_in_sequence. now rewrite He, Hs.
Qed.

Lemma encoded_same_entities db db' :
  Sql.tbl_entities db' = Sql.tbl_entities db ->
  observations_encoded db -> observations_encoded db'.
Proof. unfold observations_encoded. now intros ->. Qed.

Section Invariants.

Context {Embedding : Type} (generateEmbedding : string -> Error + Embedding).
Implicit Types s : Enhanced.Store Embedding.

Lemma createEntities_encoded es s :
  observations_encoded (Enhanced.tables s) ->
  observations_encoded (Enhanced.tables (fst (Enhanced.createEntities es s))).
Proof. now rewrite createEntities_store. Qed.

Lemma addObservationsTo_well_formed o s :
  well_formed (Enhanced.tables s) ->
  well_formed (Enhanced.tables (fst (Enhanced.addObservationsTo o s))).
Proof.
  intros H. rewrite addObservationsTo_tables.
  destruct (Sql.select_entity_by_name _ _); [|exact H].
  cbv zeta. destruct (0 <? _)%nat; [|exact H].
  now apply update_observations_well_formed.
Qed.

Lemma addObservationsTo_encoded o s :
  clean (contents o) ->
  observations_encoded (Enhanced.tables s) ->
  observations_encoded (Enhanced.tables (fst (Enhanced.addObservationsTo o s))).
Proof.
  intros Ho H. rewrite addObservationsTo_tables.
  destruct (Sql.select_entity_by_name _ _) as [row|] eqn:F; [|exact H].
  cbv zeta. destruct (0 <? _)%nat; [|exact H].
  apply update_observations_encoded; [|exact H].
  apply encodes_join, clean_merge; [|exact Ho].
  apply decoded_clean. apply select_entity_by_name_In in F as [Hin _].
  now apply (encoded_row _ _ H).
Qed.

Lemma async_fst {A : Type} (m : M (Enhanced.Store Embedding) A) s :
  fst (async m s) = fst (m s).
Proof. unfold async. now destruct (m s). Qed.

Lemma addObservations_fst obs s :
  fst (Enhanced.addObservations obs s)
  = fst (mapM (fun o => async (Enhanced.addObservationsTo o)) obs s).
Proof.
  unfold Enhanced.addObservations, bind.
  destruct (mapM _ obs s) as [s' [e|ps]]; [reflexivity|].
  cbn [fst]. unfold await. now destruct (Promise_all ps).
Qed.

Lemma addObservations_encoded obs s :
  Forall (fun o => clean (contents o)) obs ->
  observations_encoded (Enhanced.tables s) ->
  observations_encoded (Enhanced.tables (fst (Enhanced.addObservations obs s))).
Proof.
  intros Hobs. rewrite addObservations_fst.
  apply mapM_preserves with (P := fun t => observations_encoded (Enhanced.tables t)).
  intros o t Ho Ht. rewrite async_fst. apply addObservationsTo_encoded; [|exact Ht].
  rewrite Forall_forall in Hobs. now apply Hobs.
Qed.

Lemma deleteObservations_body_tables (d : Deletion) s :
  Enhanced.tables
    (fst ((entity <- query (Enhanced.ofTables
                              (Sql.select_entity_by_name (del_entityName d))) ;;
           match entity with
           | Some row =>
               exec (Enhanced.setTables
                       (Sql.update_observations
                          (JS.join "|||"
                             (filter (fun o => negb (JS.includes (del_observations d) o))
                                     (splitObservations (Sql.col_observations row))))
                          (del_entityName d)))
           | None => ret tt
           end) s))
  = match Sql.select_entity_by_name (del_entityName d) (Enhanced.tables s) with
    | Some row =>
        Sql.update_observations
          (JS.join "|||"
             (filter (fun o => negb (JS.includes (del_observations d) o))
                     (splitObservations (Sql.col_observations row))))
          (del_entityName d) (Enhanced.tables s)
    | None => Enhanced.tables s
    end.
Proof.
  unfold bind, query, Enhanced.ofTables.
  destruct (Sql.select_entity_by_name _ _); reflexivity.
Qed.

Lemma deleteObservations_well_formed ds s :
  well_formed (Enhanced.tables s) ->
  well_formed (Enhanced.tables (fst (Enhanced.deleteObservations ds s))).
Proof.
  unfold Enhanced.deleteObservations.
  apply forEach_preserves with (P := fun t => well_formed (Enhanced.tables t)).
  intros d t _ Ht. rewrite deleteObservations_body_tables.
  destruct (Sql.select_entity_by_name _ _); [|exact Ht].
  now apply update_observations_well_formed.
Qed.

Lemma deleteObservations_encoded ds s :
  observations_encoded (Enhanced.tables s) ->
  observations_encoded (Enhanced.tables (fst (Enhanced.deleteObservations ds s))).
Proof.
  unfold Enhanced.deleteObservations.
  apply forEach_preserves with (P := fun t => observations_encoded (Enhanced.tables t)).
  intros d t _ Ht. rewrite deleteObservations_body_tables.
  destruct (Sql.select_entity_by_name _ _) as [row|] eqn:F; [|exact Ht].
  apply update_observations_encoded; [|exact Ht].
  apply encodes_join, clean_filter, decoded_clean.
  apply select_entity_by_name_In in F as [Hin _].
  now apply (encoded_row _ _ Ht).
Qed.

Lemma deleteEntities_encoded names s :
  observations_encoded (Enhanced.tables s) ->
  observations_encoded (Enhanced.tables (fst (Enhanced.deleteEntities names s))).
Proof.
  rewrite deleteEntities_tables. unfold observations_encoded. cbn.
  rewrite !Forall_forall. intros H r Hr. apply filter_In in Hr as [Hr _]. now apply H.
Qed.

(** A resumed closure writes nothing: when its embedding is there, its
    first statement is refused an [ArrayBuffer], inside the [try]. *)
Lemma runTask_idle t s : Enhanced.runTask generateEmbedding t s = s.
Proof.
  destruct t as [rowid text|rowid text];
    unfold Enhanced.runTask, try_catch, bind, await;
    destruct (generateEmbedding text) as [e|v]; reflexivity.
Qed.

Lemma runTask_tables t s :
  Enhanced.tables (Enhanced.runTask generateEmbedding t s) = Enhanced.tables s.
Proof. now rewrite runTask_idle. Qed.

Lemma resume_tables n s :
  Enhanced.tables (Enhanced.resume generateEmbedding n s) = Enhanced.tables s.
Proof.
  unfold Enhanced.resume. destruct (nth_error _ n); [|reflexivity].
  now rewrite runTask_tables.
Qed.

Lemma perform_encoded c s :
  clean_call c ->
  observations_encoded (Enhanced.tables s) ->
  observations_encoded (Enhanced.tables (perform generateEmbedding c s)).
Proof.
  intros Hc H. destruct c as [es|rs|obs|names|ds|rs|n]; cbn [perform clean_call] in *.
  - now apply createEntities_encoded.
  - destruct (createRelations_frame rs s) as (He & _).
    exact (encoded_same_entities _ _ He H).
  - now apply addObservations_encoded.
  - now apply deleteEntities_encoded.
  - now apply deleteObservations_encoded.
  - destruct (deleteRelations_frame rs s) as (He & _).
    exact (encoded_same_entities _ _ He H).
  - now rewrite resume_tables.
Qed.

Lemma performAll_encoded cs s :
  Forall clean_call cs ->
  observations_encoded (Enhanced.tables s) ->
  observations_encoded (Enhanced.tables (performAll generateEmbedding cs s)).
Proof.
  revert s. induction cs as [|c cs IH]; intros s Hcs H; [exact H|].
  inversion Hcs as [|? ? Hc Hcs']; subst.
  cbn. apply IH; [exact Hcs'|]. now apply perform_encoded.
Qed.

End Invariants.

(** ** The two servers side by side *)


Lemma basic_addObservationsTo_run o db :
  Basic.addObservationsTo o db =
  match Sql.select_entity_by_name (entityName o) db with
  | None => (db, inl (EntityNotFound (entityName o)))
  | Some row =>
      let existing := splitObservations (Sql.col_observations row) in
      let new := filter (fun content => negb (JS.includes existing content))
                        (contents o) in
      (if (0 <? length new)%nat
       then Sql.update_observations (JS.join "|||" (existing ++ new)%list)
                                    (entityName o) db
       else db,
       inr (mkResult (entityName o) new))
  end.
Proof.
  unfold Basic.addObservationsTo, bind, query.
  destruct (Sql.select_entity_by_name (entityName o) db) as [row|]; [|reflexivity].
  cbv zeta. now destruct (0 <? length _)%nat.
Qed.

Section Agreement.

Context {Embedding : Type}.
Implicit Types s : Enhanced.Store Embedding.

Lemma agree_forEach {A : Type} (bE : A -> M (Enhanced.Store Embedding) unit)
    (bB : A -> M Sql.Tables unit) :
  (forall x, agree (bE x) (bB x)) ->
  forall xs, agree (forEach bE xs) (forEach bB xs).
Proof.
  intros Hb xs. induction xs as [|x xs IH]; intros s; [now split|].
  cbn [forEach]. unfold bind.
  destruct (Hb x s) as [Ht Hr].
  destruct (bE x s) as [s1 r1], (bB x (Enhanced.tables s)) as [db1 r2].
  cbn [fst snd] in Ht, Hr. subst db1 r2.
  destruct r1 as [e|u]; [now split|]. apply IH.
Qed.

Lemma agree_forPush {A B : Type} (bE : A -> M (Enhanced.Store Embedding) (option B))
    (bB : A -> M Sql.Tables (option B)) :
  (forall x, agree (bE x) (bB x)) ->
  forall xs acc, agree (forPush bE xs acc) (forPush bB xs acc).
Proof.
  intros Hb xs. induction xs as [|x xs IH]; intros acc s; [now split|].
  cbn [forPush]. unfold bind.
  destruct (Hb x s) as [Ht Hr].
  destruct (bE x s) as [s1 r1], (bB x (Enhanced.tables s)) as [db1 r2].
  cbn [fst snd] in Ht, Hr. subst db1 r2.
  destruct r1 as [e|u]; [now split|]. apply IH.
Qed.

Lemma agree_createRelations rs :
  agree (Embedding := Embedding) (Enhanced.createRelations rs) (Basic.createRelations rs).
Proof.
  unfold Enhanced.createRelations, Basic.createRelations.
  apply agree_forPush. intros r s.
  unfold bind, run, Enhanced.onTables.
  destruct (Sql.insert_or_ignore_relation _ _ _ _) as [db n].
  destruct (0 <? n)%nat; now split.
Qed.

Lemma agree_deleteEntities names :
  agree (Embedding := Embedding) (Enhanced.deleteEntities names) (Basic.deleteEntities names).
Proof.
  unfold Enhanced.deleteEntities, Basic.deleteEntities.
  apply agree_forEach. intros n s.
  unfold bind, query, exec, Enhanced.ofTables.
  destruct (Sql.select_entity_by_name n (Enhanced.tables s)); now split.
Qed.

Lemma agree_deleteObservations ds :
  agree (Embedding := Embedding)
        (Enhanced.deleteObservations ds) (Basic.deleteObservations ds).
Proof.
  unfold Enhanced.deleteObservations, Basic.deleteObservations.
  apply agree_forEach. intros d s.
  unfold bind, query, exec, Enhanced.ofTables.
  destruct (Sql.select_entity_by_name _ (Enhanced.tables s)); now split.
Qed.

Lemma agree_deleteRelations rs :
  agree (Embedding := Embedding) (Enhanced.deleteRelations rs) (Basic.deleteRelations rs).
Proof.
  unfold Enhanced.deleteRelations, Basic.deleteRelations.
  apply agree_forEach. intros r s. now split.
Qed.

Lemma agree_addObservationsTo o :
  agree (Embedding := Embedding)
        (Enhanced.addObservationsTo o) (Basic.addObservationsTo o).
Proof.
  intros s.
  rewrite addObservationsTo_tables, addObservationsTo_result,
    basic_addObservationsTo_run.
  destruct (Sql.select_entity_by_name (entityName o) (Enhanced.tables s));
    now split.
Qed.

End Agreement.

(** What an operation of the lexical server does to the tables, read off
    the vector-enabled one on a database with these tables. *)
Lemma agree_tables {R : Type} (e : M (Enhanced.Store unit) R) (b : M Sql.Tables R) :
  agree e b -> forall db, fst (b db) = Enhanced.tables (fst (e (holding db))).
Proof. intros H db. destruct (H (holding db)) as [Ht _]. now rewrite Ht. Qed.

(** ** The calls of the lexical server keep the invariants *)

Lemma basic_createEntities_encoded es db :
  Forall (fun e => clean (observations e)) es ->
  observations_encoded db -> observations_encoded (fst (Basic.createEntities es db)).
Proof.
  intros Hes. unfold Basic.createEntities.
  apply forPush_preserves with (P := observations_encoded).
  intros e t He Ht.
  assert (Hfst : fst ((result <- run (Sql.insert_or_ignore_entity (name e) (entityType e)
                                        (JS.join "|||" (observations e))) ;;
                       if (0 <? Sql.changes result)%nat
                       then ret (Some e) else ret None) t)
                 = fst (Sql.insert_or_ignore_entity (name e) (entityType e)
                          (JS.join "|||" (observations e)) t)).
  { unfold bind, run.
    destruct (Sql.insert_or_ignore_entity _ _ _ _) as [db' [rowid|]]; reflexivity. }
  rewrite Hfst. apply insert_entity_encoded; [|exact Ht].
  apply encodes_join. rewrite Forall_forall in Hes. now apply Hes.
Qed.

Lemma basic_addObservationsTo_tables o db :
  fst (Basic.addObservationsTo o db)
  = Enhanced.tables (fst (Enhanced.addObservationsTo o (holding (Embedding := unit) db))).
Proof. exact (agree_tables _ _ (agree_addObservationsTo o) db). Qed.

Lemma basic_addObservations_encoded obs db :
  Forall (fun o => clean (contents o)) obs ->
  observations_encoded db -> observations_encoded (fst (Basic.addObservations obs db)).
Proof.
  intros Hobs. unfold Basic.addObservations.
  apply mapM_preserves with (P := observations_encoded).
  intros o t Ho Ht. rewrite basic_addObservationsTo_tables.
  apply addObservationsTo_encoded; [|exact Ht].
  rewrite Forall_forall in Hobs. now apply Hobs.
Qed.

Lemma performLexical_encoded c db :
  clean_call c -> observations_encoded db -> observations_encoded (performLexical c db).
Proof.
  intros Hc H.
  destruct c as [es|rs|obs|names|ds|rs|n]; cbn [performLexical clean_call] in *.
  - now apply basic_createEntities_encoded.
  - rewrite (agree_tables _ _ (agree_createRelations rs)).
    destruct (createRelations_frame rs (holding (Embedding := unit) db)) as (He & _).
    exact (encoded_same_entities _ _ He H).
  - now apply basic_addObservations_encoded.
  - rewrite (agree_tables _ _ (agree_deleteEntities names)).
    now apply deleteEntities_encoded.
  - rewrite (agree_tables _ _ (agree_deleteObservations ds)).
    now apply deleteObservations_encoded.
  - rewrite (agree_tables _ _ (agree_deleteRelations rs)).
    destruct (deleteRelations_frame rs (holding (Embedding := unit) db)) as (He & _).
    exact (encoded_same_entities _ _ He H).
  - exact H.
Qed.

Lemma performAllLexical_encoded cs db :
  Forall clean_call cs ->
  observations_encoded db -> observations_encoded (performAllLexical cs db).
Proof.
  revert db. induction cs as [|c cs IH]; intros db Hcs H; [exact H|].
  inversion Hcs as [|? ? Hc Hcs']; subst.
  cbn. apply IH; [exact Hcs'|]. now apply performLexical_encoded.
Qed.

(** ** No duplicate observations *)

Lemma encoded_graph_clean db e :
  observations_encoded db -> In e (entities (graphOf db)) -> NoDup (observations e).
Proof.
  intros Henc He. unfold graphOf in He. cbn [entities] in He.
  apply in_map_iff in He as (r & <- & Hr).
  cbn [rowToEntity observations].
  apply (decoded_clean (Sql.col_observations r)).
  now apply (encoded_row _ _ Henc).
Qed.

(** C3 (as the code has it).  Perform any sequence of calls of the
    mutating operations ([createEntities], [addObservations],
    [deleteObservations], and also the other three and the background
    closures), each call either returning or throwing: on the lexical server
    from the fresh database, on the vector-enabled server from any database
    whose stored observation texts are texts of lists free of duplicates
    and of ['|'].  If every observation list handed to [createEntities] and
    every contents list handed to [addObservations] is itself free of
    duplicates and of the character ['|'], then every entity a read shows
    has an observation list without duplicates. *)
Theorem observations_stay_duplicate_free :
  forall calls : list Call,
    Forall clean_call calls ->
    (forall e : Entity,
        In e (entities (graphOf (performAllLexical calls Sql.emptyTables))) ->
        NoDup (observations e))
    /\ (forall (Embedding : Type) (generateEmbedding : string -> Error + Embedding)
               (s : Enhanced.Store Embedding),
          observations_encoded (Enhanced.tables s) ->
          forall e : Entity,
            In e (entities (graphOf (Enhanced.tables
                    (performAll generateEmbedding calls s)))) ->
            NoDup (observations e)).
Proof.
  intros calls Hclean. split.
  - intros e He. revert He. apply encoded_graph_clean.
    apply performAllLexical_encoded; [exact Hclean|]. constructor.
  - intros Embedding generateEmbedding s Hs e He. revert He.
    apply encoded_graph_clean. now apply performAll_encoded.
Qed.

(** The example of the specification on the lexical server: A is created
    with "x", then "x" and "y" are added. *)
Lemma observations_stay_duplicate_free_witness :
  Forall clean_call Scenario.merge_calls
  /\ entities (graphOf (performAllLexical Scenario.merge_calls Sql.emptyTables))
     = [mkEntity "A" "person" ["x"; "y"]]
  /\ forall e : Entity,
       In e (entities (graphOf (performAllLexical Scenario.merge_calls
                                  Sql.emptyTables))) ->
       NoDup (observations e).
Proof.
  assert (Hc : Forall clean_call Scenario.merge_calls).
  { unfold Scenario.merge_calls.
    repeat constructor; simpl; intuition discriminate. }
  split; [exact Hc|]. split; [reflexivity|].
  exact (proj1 (observations_stay_duplicate_free Scenario.merge_calls Hc)).
Defined.

(** C3 as stated fails.  The lexical [createEntities] stores the
    observation list it is given, duplicates included; [addObservations],
    on either server, compares the contents with what is stored, not with
    each other; and a new observation that contains the separator is read
    back in pieces, which may repeat. *)
Lemma createEntities_keeps_duplicates :
  ~ (forall (calls : list Call) (e : Entity),
        In e (entities (graphOf (performAllLexical calls Sql.emptyTables))) ->
        NoDup (observations e))
  /\ observationsOf "A"
       (performAllLexical [CreateEntities [Scenario.twice]] Sql.emptyTables)
     = Some ["x"; "x"]
  /\ observationsOf "A"
       (performAllLexical
          [CreateEntities [Scenario.A]; AddObservations [mkInput "A" ["y"; "y"]]]
          Sql.emptyTables)
     = Some ["x"; "y"; "y"]
  /\ observationsOf "A" (Enhanced.tables Scenario.withA) = Some ["x"]
  /\ observationsOf "A"
       (Enhanced.tables
          (performAll Scenario.generateEmbedding
             [AddObservations [mkInput "A" ["y"; "y"]]] Scenario.withA))
     = Some ["x"; "y"; "y"]
  /\ observationsOf "A"
       (performAllLexical
          [CreateEntities [Scenario.A]; AddObservations [mkInput "A" ["z|||x"]]]
          Sql.emptyTables)
     = Some ["x"; "z"; "x"].
Proof.
  split; [|repeat split; reflexivity].
  intros H.
  specialize (H [CreateEntities [Scenario.twice]] Scenario.twice).
  assert (Hin : In Scenario.twice
                  (entities (graphOf (performAllLexical
                                        [CreateEntities [Scenario.twice]]
                                        Sql.emptyTables))))
    by (vm_compute; now left).
  apply H in Hin. cbn in Hin.
  inversion Hin as [|? ? Hx _]; subst. apply Hx. now left.
Qed.

(** ** Round trip of an observation list *)

Lemma select_entity_by_name_app n l1 l2 rels q :
  Sql.select_entity_by_name n (Sql.mkTables (l1 ++ l2) rels q) =
  match Sql.select_entity_by_name n (Sql.mkTables l1 rels q) with
  | Some row => Some row
  | None => Sql.select_entity_by_name n (Sql.mkTables l2 rels q)
  end.
Proof.
  unfold Sql.select_entity_by_name. cbn [Sql.tbl_entities].
  induction l1 as [|x l1 IH]; [reflexivity|].
  simpl. destruct (Sql.name_is n x); [reflexivity|exact IH].
Qed.

(** An entity the lexical server creates under a new name is read back
    with the observation list it was created with, provided no observation
    contains ['|'] and the list is not the single empty string. *)
Lemma createEntities_round_trip (E : Entity) (db : Sql.Tables) :
  Sql.select_entity_by_name (name E) db = None ->
  all_no_pipe (observations E) ->
  observations E <> [""] ->
  Basic.createEntities [E] db = (created E db, inr [E])
  /\ observationsOf (name E) (created E db) = Some (observations E)
  /\ In E (entities (graphOf (created E db))).
Proof.
  intros Hnew Hp Hne.
  rewrite basic_createEntities_single.
  apply find_none_existsb in Hnew as Hex. rewrite Hex. split; [reflexivity|].
  split.
  - unfold observationsOf, created.
    rewrite select_entity_by_name_app.
    unfold Sql.select_entity_by_name at 1. cbn [Sql.tbl_entities].
    unfold Sql.select_entity_by_name in Hnew. rewrite Hnew.
    unfold Sql.select_entity_by_name. cbn [Sql.tbl_entities find].
    unfold Sql.name_is. cbn [Sql.col_name]. rewrite String.eqb_refl.
    cbn [option_map Sql.col_observations].
    now rewrite splitObservations_join_exact.
  - unfold graphOf, created. cbn [entities Sql.tbl_entities].
    rewrite map_app. apply in_or_app. right. left.
    unfold rowToEntity. cbn [Sql.col_name Sql.col_entityType Sql.col_observations].
    rewrite splitObservations_join_exact by assumption. now destruct E.
Qed.

(** C4 at its failing inputs, on the lexical server, whose [createEntities]
    stores what it is given.  An observation that contains ["|||"] comes
    back from [readGraph] and from [openNodes] as two observations, and an
    observation list holding only the empty string comes back empty.  The
    readers of the vector-enabled server decode the same rows the same
    way. *)
Theorem observation_round_trip_fails :
  (exists db1 : Sql.Tables,
      Basic.createEntities [Scenario.piped] Sql.emptyTables
      = (db1, inr [Scenario.piped])
      /\ Basic.readGraph Sql.Healthy db1
         = (db1, inr (mkGraph [mkEntity "P" "note" ["a"; "b"]] []))
      /\ Basic.openNodes ["P"] db1
         = (db1, inr (mkGraph [mkEntity "P" "note" ["a"; "b"]] []))
      /\ snd (Enhanced.readGraph Sql.Healthy (holding (Embedding := Scenario.Embedding) db1))
         = inr (mkGraph [mkEntity "P" "note" ["a"; "b"]] [])
      /\ snd (Enhanced.openNodes ["P"] (holding (Embedding := Scenario.Embedding) db1))
         = inr (mkGraph [mkEntity "P" "note" ["a"; "b"]] []))
  /\ (exists db1 : Sql.Tables,
        Basic.createEntities [Scenario.blank] Sql.emptyTables
        = (db1, inr [Scenario.blank])
        /\ Basic.readGraph Sql.Healthy db1
           = (db1, inr (mkGraph [mkEntity "Q" "note" []] []))
        /\ Basic.openNodes ["Q"] db1
           = (db1, inr (mkGraph [mkEntity "Q" "note" []] []))
        /\ snd (Enhanced.readGraph Sql.Healthy
                  (holding (Embedding := Scenario.Embedding) db1))
           = inr (mkGraph [mkEntity "Q" "note" []] [])
        /\ snd (Enhanced.openNodes ["Q"]
                  (holding (Embedding := Scenario.Embedding) db1))
           = inr (mkGraph [mkEntity "Q" "note" []] [])).
Proof.
  split.
  - exists (created Scenario.piped Sql.emptyTables). repeat split; reflexivity.
  - exists (created Scenario.blank Sql.emptyTables). repeat split; reflexivity.
Qed.

(** ** Merging observations *)

Section AddObservations.

Context {Embedding : Type}.
Implicit Types s : Enhanced.Store Embedding.

Lemma addObservations_single o s :
  Enhanced.addObservations [o] s =
  (fst (Enhanced.addObservationsTo o s),
   match snd (Enhanced.addObservationsTo o s) with
   | inl e => inl e
   | inr r => inr [r]
   end).
Proof.
  unfold Enhanced.addObservations. cbn [mapM]. unfold bind, async, ret.
  destruct (Enhanced.addObservationsTo o s) as [s1 [e|r]]; reflexivity.
Qed.

Lemma select_after_update text n db row :
  Sql.select_entity_by_name n db = Some row ->
  Sql.select_entity_by_name n (Sql.update_observations text n db)
  = Some (Sql.mkEntityRow (Sql.id row) (Sql.col_name row) (Sql.col_entityType row) text).
Proof.
  unfold Sql.select_entity_by_name, Sql.update_observations. cbn [Sql.tbl_entities].
  induction (Sql.tbl_entities db) as [|x l IH]; [discriminate|].
  simpl. destruct (Sql.name_is n x) eqn:E.
  - intros [= <-]. cbn [find]. unfold Sql.name_is in *. cbn [Sql.col_name].
    now rewrite E.
  - cbn [find]. rewrite E. exact IH.
Qed.

(** What [addObservations] does for one existing entity: it returns the
    contents that are not stored yet, in input order; it stores the text
    of the existing observations followed by them, or leaves the store as
    it is when there are none.  A later read shows exactly that sequence
    as long as no string involved contains ['|'] and the sequence is not
    the single empty string. *)
Lemma addObservations_merge o s row :
  Sql.select_entity_by_name (entityName o) (Enhanced.tables s) = Some row ->
  let existing := splitObservations (Sql.col_observations row) in
  let added := filter (fun c => negb (JS.includes existing c)) (contents o) in
  snd (Enhanced.addObservations [o] s) = inr [mkResult (entityName o) added]
  /\ (added = [] -> Enhanced.tables (fst (Enhanced.addObservations [o] s))
                    = Enhanced.tables s)
  /\ (added <> [] ->
      Enhanced.tables (fst (Enhanced.addObservations [o] s))
      = Sql.update_observations (JS.join "|||" (existing ++ added)%list)
                                (entityName o) (Enhanced.tables s))
  /\ (all_no_pipe existing -> all_no_pipe (contents o) ->
      (existing ++ added)%list <> [""] ->
      observationsOf (entityName o)
                     (Enhanced.tables (fst (Enhanced.addObservations [o] s)))
      = Some (existing ++ added)%list).
Proof.
  intros Hrow existing added.
  rewrite addObservations_single. cbn [fst snd].
  rewrite addObservationsTo_result, addObservationsTo_tables, Hrow.
  cbv zeta. fold existing. fold added.
  split; [reflexivity|].
  split; [intros ->; reflexivity|].
  split.
  - intros Hne. destruct added; [congruence|reflexivity].
  - intros He Hc Hne.
    assert (Hall : all_no_pipe (existing ++ added)).
    { apply Forall_app. split; [exact He|].
      unfold all_no_pipe in *. rewrite Forall_forall in *.
      intros x Hx. apply Hc. now apply filter_In in Hx. }
    unfold observationsOf.
    destruct added as [|a added'] eqn:Ha.
    + cbn [length Nat.ltb Nat.leb]. rewrite Hrow. cbn [option_map].
      now rewrite app_nil_r.
    + cbn [length Nat.ltb Nat.leb].
      rewrite (select_after_update _ _ _ _ Hrow). cbn [option_map Sql.col_observations].
      now rewrite splitObservations_join_exact.
Qed.

End AddObservations.

(** C6 at its failing input.  A has the observation "x"; adding the
    contents ["y|||z"] returns that string as added, but the entity is
    read back with the observations "x", "y", "z" and not "x", "y|||z".
    On the example of the specification (adding "x" and "y") the merge
    is as claimed. *)
Theorem addObservations_merge_fails :
  (exists s1 : Scenario.Store,
      Enhanced.addObservations [mkInput "A" ["y|||z"]] Scenario.withA
      = (s1, inr [mkResult "A" ["y|||z"]])
      /\ observationsOf "A" (Enhanced.tables Scenario.withA) = Some ["x"]
      /\ observationsOf "A" (Enhanced.tables s1) = Some ["x"; "y"; "z"])
  /\ (exists s1 : Scenario.Store,
        Enhanced.addObservations [mkInput "A" ["x"; "y"]] Scenario.withA
        = (s1, inr [mkResult "A" ["y"]])
        /\ observationsOf "A" (Enhanced.tables s1) = Some ["x"; "y"]).
Proof.
  split.
  - exists (fst (Enhanced.addObservations [mkInput "A" ["y|||z"]] Scenario.withA)).
    repeat split; reflexivity.
  - exists (fst (Enhanced.addObservations [mkInput "A" ["x"; "y"]] Scenario.withA)).
    repeat split; reflexivity.
Qed.

(** ** A missing entity: the error, and what has been written by then *)




Section MissingEntity.

Context {Embedding : Type}.
Implicit Types s : Enhanced.Store Embedding.






End MissingEntity.



Lemma select_other_after_update text n m db :
  m <> n ->
  Sql.select_entity_by_name m (Sql.update_observations text n db)
  = Sql.select_entity_by_name m db.
Proof.
  intros Hmn. unfold Sql.select_entity_by_name, Sql.update_observations.
  cbn [Sql.tbl_entities].
  induction (Sql.tbl_entities db) as [|x l IH]; [reflexivity|].
  cbn [map find].
  assert (Hx : Sql.name_is m
                 (if Sql.name_is n x
                  then Sql.mkEntityRow (Sql.id x) (Sql.col_name x)
                         (Sql.col_entityType x) text
                  else x) = Sql.name_is m x)
    by now destruct (Sql.name_is n x).
  rewrite Hx. destruct (Sql.name_is m x) eqn:Em; [|exact IH].
  assert (Sql.name_is n x = false) as ->; [|reflexivity].
  unfold Sql.name_is in *. apply String.eqb_eq in Em. apply String.eqb_neq. congruence.
Qed.

Lemma splitObservations_nil text : splitObservations text = [] -> text = "".
Proof.
  intros H. pose proof (join_split_text text) as J. now rewrite H in J.
Qed.




(** *** What an item writes *)









(** *** What has been written stays *)





Lemma addObservations_vec {Embedding : Type} obs (s : Enhanced.Store Embedding) :
  Enhanced.entities_vec (fst (Enhanced.addObservations obs s)) = Enhanced.entities_vec s.
Proof.
  rewrite addObservations_fst.
  apply mapM_preserves with
    (P := fun t => Enhanced.entities_vec t = Enhanced.entities_vec s); [|reflexivity].
  intros o t _ Ht. now rewrite async_fst, addObservationsTo_vec.
Qed.




(** ** The order of an index *)

Lemma insert_in_order_In {A : Type} (leb : A -> A -> bool) x l y :
  In y (Sql.insert_in_order leb x l) <-> y = x \/ In y l.
Proof.
  induction l as [|z l IH]; cbn.
  - intuition.
  - destruct (leb x z); cbn; [intuition|]. rewrite IH. intuition.
Qed.

Lemma index_order_In {A : Type} (leb : A -> A -> bool) l y :
  In y (Sql.index_order leb l) <-> In y l.
Proof.
  induction l as [|x l IH]; [reflexivity|].
  cbn [Sql.index_order]. rewrite insert_in_order_In, IH. cbn. intuition.
Qed.

Lemma text_in_In vs x : Sql.text_in vs x = true <-> In x vs.
Proof.
  unfold Sql.text_in. rewrite existsb_exists. split.
  - intros (y & Hy & E). apply String.eqb_eq in E. now subst.
  - intros H. exists x. split; [exact H|apply String.eqb_refl].
Qed.

(** The rows the relations statement returns: those whose two endpoints
    are among the names. *)
Lemma select_relations_between_In names db r :
  In r (Sql.select_relations_between names names db)
  <-> In r (Sql.tbl_relations db)
      /\ In (Sql.from_entity r) names /\ In (Sql.to_entity r) names.
Proof.
  unfold Sql.select_relations_between.
  rewrite index_order_In, filter_In, andb_true_iff, !text_in_In. reflexivity.
Qed.

Lemma filter_none {A : Type} (f : A -> bool) (l : list A) :
  (forall x, f x = false) -> filter f l = [].
Proof.
  intros H. induction l as [|x l IH]; [reflexivity|]. simpl. now rewrite H.
Qed.

Lemma filter_none_in {A : Type} (f : A -> bool) (l : list A) :
  (forall x, In x l -> f x = false) -> filter f l = [].
Proof.
  induction l as [|x l IH]; intros H; [reflexivity|].
  simpl. rewrite (H x (or_introl eq_refl)). apply IH.
  intros y Hy. apply H. now right.
Qed.

Lemma select_relations_between_nil db :
  Sql.select_relations_between [] [] db = [].
Proof.
  unfold Sql.select_relations_between. now rewrite filter_none.
Qed.

(** ** Vector search *)

(** C1.  The vector search returns no graph: it throws on every query,
    for every [topK], on every store, and leaves the store as it is.  When
    the model cannot embed the query the search throws the model's error.
    When it can, the statement on the index is run with
    [queryEmbedding.buffer] as its first argument, an [ArrayBuffer], which
    the driver refuses to bind: the search throws before the index is
    consulted.  So it is on a fresh database, whose index is empty and for
    which the claim has the empty graph. *)
Theorem searchNodes_vector_throws :
  (forall (Embedding Distance : Type)
          (generateEmbedding : string -> Error + Embedding)
          (distance : Embedding -> Embedding -> Distance)
          (dist_leb : Distance -> Distance -> bool)
          (q : string) (topK : Z) (s : Enhanced.Store Embedding),
      exists e,
        Enhanced.searchNodes generateEmbedding distance dist_leb q topK s = (s, inl e)
        /\ (forall e', generateEmbedding q = inl e' -> e = e'))
  /\ Enhanced.entities_vec (@Enhanced.emptyStore Scenario.Embedding) = []
  /\ Scenario.generateEmbedding "tea" = inr 3%Z
  /\ (forall g,
        Enhanced.searchNodesDefault Scenario.generateEmbedding Scenario.distance
          Scenario.dist_leb "tea" Enhanced.emptyStore
        <> (Enhanced.emptyStore, inr g)).
Proof.
  split; [|repeat split; discriminate].
  intros Embedding Distance generateEmbedding distance dist_leb q topK s.
  unfold Enhanced.searchNodes, bind, await.
  destruct (generateEmbedding q) as [e|v].
  - exists e. split; [reflexivity|]. intros e' H. now injection H.
  - eexists. split; [reflexivity|]. intros e' H. discriminate H.
Qed.

(** ** Lexical search *)

(** C8 at its failing inputs.  The store holds the one entity Ada.  The
    query ["_"] returns Ada although no text of Ada contains an underscore:
    [LIKE] reads it as a wildcard.  The query ["tea|||plays"] returns Ada
    although no single observation contains it: the match runs over the
    stored text, separators included.  A plain query behaves as claimed:
    ["TEA"] finds Ada, ["coffee"] finds nothing. *)
Theorem searchNodes_lexical_overmatches :
  Basic.searchNodes "_" Scenario.library
  = (Scenario.library, inr (mkGraph [Scenario.ada] []))
  /\ lexical_match "_" Scenario.ada = false
  /\ Basic.searchNodes "tea|||plays" Scenario.library
     = (Scenario.library, inr (mkGraph [Scenario.ada] []))
  /\ lexical_match "tea|||plays" Scenario.ada = false
  /\ Basic.searchNodes "TEA" Scenario.library
     = (Scenario.library, inr (mkGraph [Scenario.ada] []))
  /\ lexical_match "TEA" Scenario.ada = true
  /\ Basic.searchNodes "coffee" Scenario.library
     = (Scenario.library, inr (mkGraph [] []))
  /\ lexical_match "coffee" Scenario.ada = false.
Proof. repeat split; reflexivity. Qed.

(** * Further properties of the two servers *)

(** The two programs share every operation but the search, and differ in
    [createEntities], where the vector-enabled one throws.  The vector
    server's [createRelations], delete and read operations act on the two
    tables as the lexical server's do and return the same, whatever the
    store holds besides the tables, and whatever the condition of the
    storage while [readGraph] scans. *)
Theorem servers_agree :
  forall (Embedding : Type),
    (forall rs, agree (Embedding := Embedding)
                  (Enhanced.createRelations rs) (Basic.createRelations rs))
    /\ (forall names, agree (Embedding := Embedding)
                        (Enhanced.deleteEntities names) (Basic.deleteEntities names))
    /\ (forall ds, agree (Embedding := Embedding)
                     (Enhanced.deleteObservations ds) (Basic.deleteObservations ds))
    /\ (forall rs, agree (Embedding := Embedding)
                     (Enhanced.deleteRelations rs) (Basic.deleteRelations rs))
    /\ (forall c, agree (Embedding := Embedding)
                    (Enhanced.readGraph c) (Basic.readGraph c))
    /\ (forall names, agree (Embedding := Embedding)
                        (Enhanced.openNodes names) (Basic.openNodes names)).
Proof.
  intros Embedding.
  split; [apply agree_createRelations|].
  split; [apply agree_deleteEntities|].
  split; [apply agree_deleteObservations|].
  split; [apply agree_deleteRelations|].
  split; [intros c s; destruct c; now split|].
  intros names s. unfold Enhanced.openNodes, Basic.openNodes.
  destruct (length names =? 0)%nat; [now split|].
  unfold bind, prepared, attempt, query, Enhanced.ofTables.
  destruct (Sql.prepare_placeholders (length names)); [now split|].
  destruct (Sql.prepare_placeholders (length names + length names)); now split.
Qed.

(** [addObservations] returns the same in both servers, values or error,
    although the vector server maps an async callback and awaits
    [Promise.all]; when it returns values the tables are the same too.
    When it throws they may differ: the vector server has gone through
    the whole list. *)
Theorem addObservations_agree :
  forall (Embedding : Type) (obs : list ObservationInput)
         (s : Enhanced.Store Embedding),
    snd (Enhanced.addObservations obs s)
    = snd (Basic.addObservations obs (Enhanced.tables s))
    /\ match snd (Basic.addObservations obs (Enhanced.tables s)) with
       | inr _ =>
           Enhanced.tables (fst (Enhanced.addObservations obs s))
           = fst (Basic.addObservations obs (Enhanced.tables s))
       | inl _ => True
       end.
Proof.
  intros Embedding obs s.
  assert (H : exists sE ps,
             mapM (fun o => async (Enhanced.addObservationsTo o)) obs s = (sE, inr ps)
             /\ Promise_all ps = snd (Basic.addObservations obs (Enhanced.tables s))
             /\ (forall results,
                   snd (Basic.addObservations obs (Enhanced.tables s)) = inr results ->
                   Enhanced.tables sE
                   = fst (Basic.addObservations obs (Enhanced.tables s)))).
  { unfold Basic.addObservations. revert s.
    induction obs as [|o obs IH]; intros s.
    - exists s, []. now repeat split.
    - cbn [mapM]. unfold bind, async.
      destruct (agree_addObservationsTo o s) as [Ht Hr].
      destruct (Enhanced.addObservationsTo o s) as [s1 r1],
               (Basic.addObservationsTo o (Enhanced.tables s)) as [db1 r2].
      cbn [fst snd] in Ht, Hr. subst db1 r2.
      destruct (IH s1) as (s2 & ps & Hps & Hall & Htab).
      unfold async in Hps. rewrite Hps.
      exists s2, (r1 :: ps). split; [reflexivity|].
      destruct r1 as [e|y].
      + split; [reflexivity|]. intros results Hres. discriminate Hres.
      + cbn [Promise_all]. rewrite Hall.
        destruct (mapM Basic.addObservationsTo obs (Enhanced.tables s1))
          as [db2 [e|ys]]; cbn [fst snd] in *.
        * split; [reflexivity|]. intros results Hres. discriminate Hres.
        * split; [reflexivity|]. intros results _. now apply (Htab ys). }
  destruct H as (sE & ps & Hps & Hall & Htab).
  rewrite addObservations_fst, Hps. split.
  - unfold Enhanced.addObservations, bind. rewrite Hps.
    rewrite <- Hall. unfold await, throw, ret.
    now destruct (Promise_all ps).
  - destruct (snd (Basic.addObservations obs (Enhanced.tables s))) as [e|rs] eqn:E;
      [exact I|]. now apply (Htab rs).
Qed.

(** ** Relations *)

Lemma relation_eta (r : Relation) : mkRelation (from r) (to r) (relationType r) = r.
Proof. now destruct r. Qed.

Lemma same_triple_iff f t ty row :
  Sql.same_triple f t ty row = true <-> row = Sql.mkRelationRow f t ty.
Proof.
  unfold Sql.same_triple. rewrite !andb_true_iff, !String.eqb_eq. split.
  - intros [[H1 H2] H3]. destruct row; cbn in *. now subst.
  - intros ->. now repeat split.
Qed.

Lemma relation_stored_In db r :
  relation_stored db r = true <-> In (relationRow r) (Sql.tbl_relations db).
Proof.
  unfold relation_stored. rewrite existsb_exists. split.
  - intros (row & Hin & H). apply same_triple_iff in H. now subst.
  - intros H. exists (relationRow r). split; [exact H|]. now apply same_triple_iff.
Qed.

Lemma relationRow_injective r1 r2 : relationRow r1 = relationRow r2 -> r1 = r2.
Proof.
  unfold relationRow. intros [= H1 H2 H3].
  rewrite <- (relation_eta r1), <- (relation_eta r2). congruence.
Qed.

Lemma createRelations_turn (r : Relation) db :
  bind (run (Sql.insert_or_ignore_relation (from r) (to r) (relationType r)))
       (fun result => if (0 <? result)%nat then ret (Some r) else ret None) db
  = if relation_stored db r
    then (db, inr None)
    else (Sql.mkTables (Sql.tbl_entities db)
                       (Sql.tbl_relations db ++ [relationRow r])
                       (Sql.sqlite_sequence db),
          inr (Some r)).
Proof.
  unfold bind, run, Sql.insert_or_ignore_relation, relation_stored.
  now destruct (existsb _ _).
Qed.

Lemma relation_stored_snoc db r x :
  relation_stored
    (Sql.mkTables (Sql.tbl_entities db) (Sql.tbl_relations db ++ [relationRow r])
                  (Sql.sqlite_sequence db)) x
  = relation_stored db x
    || Sql.same_triple (from x) (to x) (relationType x) (relationRow r).
Proof.
  unfold relation_stored. cbn [Sql.tbl_relations].
  rewrite existsb_app. cbn [existsb]. now rewrite orb_false_r.
Qed.

(** [createRelations] on the tables, with the local array it pushes to. *)
Lemma basic_createRelations_run rs :
  forall acc db,
  exists news,
    forPush
      (fun relation =>
         bind (run (Sql.insert_or_ignore_relation
                      (from relation) (to relation) (relationType relation)))
              (fun result =>
                 if (0 <? result)%nat then ret (Some relation) else ret None))
      rs acc db
    = (Sql.mkTables (Sql.tbl_entities db)
                    (Sql.tbl_relations db ++ map relationRow news)
                    (Sql.sqlite_sequence db),
       inr (acc ++ news)%list)
    /\ NoDup news
    /\ (forall r, In r news <-> In r rs /\ relation_stored db r = false).
Proof.
  induction rs as [|r rs IH]; intros acc db.
  - exists []. cbn. rewrite !app_nil_r. split; [now destruct db|].
    split; [constructor|]. intros r. split; [contradiction|now intros [[] _]].
  - rewrite forPush_cons. cbv beta. rewrite createRelations_turn.
    destruct (relation_stored db r) eqn:Hst.
    + destruct (IH acc db) as (news & Hrun & Hnd & Hin).
      exists news. split; [exact Hrun|]. split; [exact Hnd|].
      intros x. rewrite Hin. cbn [In]. split.
      * intros [H1 H2]. split; [now right|exact H2].
      * intros [[->|H1] H2]; [congruence|now split].
    + destruct (IH (acc ++ [r])%list
                  (Sql.mkTables (Sql.tbl_entities db)
                     (Sql.tbl_relations db ++ [relationRow r])
                     (Sql.sqlite_sequence db))) as (news & Hrun & Hnd & Hin).
      exists (r :: news). rewrite Hrun.
      cbn [Sql.tbl_entities Sql.tbl_relations Sql.sqlite_sequence map].
      rewrite <- !app_assoc. cbn [app]. split; [reflexivity|].
      assert (Hself : Sql.same_triple (from r) (to r) (relationType r) (relationRow r)
                      = true) by now apply same_triple_iff.
      split.
      * constructor; [|exact Hnd]. intros Hr. apply Hin in Hr as [_ Hr].
        rewrite relation_stored_snoc, Hself, orb_true_r in Hr. discriminate Hr.
      * intros x. cbn [In]. rewrite Hin, relation_stored_snoc. split.
        -- intros [<-|[H1 H2]]; [split; [now left|exact Hst]|].
           apply orb_false_iff in H2 as [H2 _]. split; [now right|exact H2].
        -- intros [[->|H1] H2]; [now left|].
           destruct (Sql.same_triple (from x) (to x) (relationType x) (relationRow r))
             eqn:E.
           ++ left. apply same_triple_iff in E.
              apply relationRow_injective. exact E.
           ++ right. split; [exact H1|]. now rewrite H2.
Qed.

Section Relations.

Context {Embedding : Type}.
Implicit Types s : Enhanced.Store Embedding.

(** The vector server's [createRelations], from the run on the tables. *)
Lemma createRelations_run rs s :
  exists news,
    Enhanced.createRelations rs s
    = (Enhanced.mkStore
         (Sql.mkTables (Sql.tbl_entities (Enhanced.tables s))
            (Sql.tbl_relations (Enhanced.tables s) ++ map relationRow news)
            (Sql.sqlite_sequence (Enhanced.tables s)))
         (Enhanced.entities_vec s) (Enhanced.tasks s),
       inr news)
    /\ NoDup news
    /\ (forall r, In r news <-> In r rs /\ relation_stored (Enhanced.tables s) r = false).
Proof.
  destruct (basic_createRelations_run rs [] (Enhanced.tables s))
    as (news & Hrun & Hnd & Hin).
  exists news. split; [|now split].
  destruct (agree_createRelations rs s) as [Ht Hr].
  destruct (createRelations_frame rs s) as (_ & _ & Hv & Hk).
  unfold Basic.createRelations in Ht, Hr. rewrite Hrun in Ht, Hr.
  cbn [fst snd app] in Ht, Hr.
  destruct (Enhanced.createRelations rs s) as [s' r']. cbn [fst snd] in *.
  subst r'. f_equal. rewrite <- Ht, <- Hv, <- Hk. now destruct s'.
Qed.

Lemma deleteRelations_step r rs s :
  Enhanced.deleteRelations (r :: rs) s
  = Enhanced.deleteRelations rs
      (Enhanced.setTables
         (Sql.delete_relation (from r) (to r) (relationType r)) s).
Proof. reflexivity. Qed.

Lemma deleteRelations_run rs s :
  Enhanced.deleteRelations rs s
  = (Enhanced.mkStore
       (Sql.mkTables (Sql.tbl_entities (Enhanced.tables s))
          (filter (fun row => negb (row_listed rs row))
                  (Sql.tbl_relations (Enhanced.tables s)))
          (Sql.sqlite_sequence (Enhanced.tables s)))
       (Enhanced.entities_vec s) (Enhanced.tasks s),
     inr tt).
Proof.
  revert s. induction rs as [|r rs IH]; intros s.
  - cbn. rewrite filter_all. now destruct s as [[] ? ?].
  - rewrite deleteRelations_step, IH. cbn. rewrite filter_twice.
    do 3 f_equal. apply filter_ext. intros row.
    unfold row_listed. cbn [existsb]. now rewrite negb_orb.
Qed.

End Relations.

(** [createRelations] inserts each relation of its list that is not stored
    yet, once, after the rows already there, and returns exactly those;
    it looks at no entity.  Afterwards every listed relation is stored,
    and a second call with the same list returns the empty list and leaves
    the store as it is. *)
Theorem createRelations_new_only :
  forall (Embedding : Type) (rs : list Relation) (s : Enhanced.Store Embedding),
  exists news s',
    Enhanced.createRelations rs s = (s', inr news)
    /\ s' = Enhanced.mkStore
              (Sql.mkTables (Sql.tbl_entities (Enhanced.tables s))
                 (Sql.tbl_relations (Enhanced.tables s) ++ map relationRow news)
                 (Sql.sqlite_sequence (Enhanced.tables s)))
              (Enhanced.entities_vec s) (Enhanced.tasks s)
    /\ NoDup news
    /\ (forall r, In r news <-> In r rs /\ relation_stored (Enhanced.tables s) r = false)
    /\ Forall (fun r => relation_stored (Enhanced.tables s') r = true) rs
    /\ Enhanced.createRelations rs s' = (s', inr []).
Proof.
  intros Embedding rs s.
  destruct (createRelations_run rs s) as (news & Hrun & Hnd & Hin).
  eexists news, _. split; [exact Hrun|]. split; [reflexivity|].
  split; [exact Hnd|]. split; [exact Hin|].
  assert (Hall : Forall
            (fun r =>
               relation_stored
                 (Enhanced.tables
                    (Enhanced.mkStore
                       (Sql.mkTables (Sql.tbl_entities (Enhanced.tables s))
                          (Sql.tbl_relations (Enhanced.tables s)
                           ++ map relationRow news)
                          (Sql.sqlite_sequence (Enhanced.tables s)))
                       (Enhanced.entities_vec s) (Enhanced.tasks s))) r = true) rs).
  { apply Forall_forall. intros r Hr. apply relation_stored_In.
    cbn [Enhanced.tables Sql.tbl_relations]. apply in_or_app.
    destruct (relation_stored (Enhanced.tables s) r) eqn:E.
    - left. now apply relation_stored_In.
    - right. apply in_map. apply Hin. now split. }
  split; [exact Hall|].
  match goal with |- Enhanced.createRelations rs ?t = _ => set (s' := t) in * end.
  destruct (createRelations_run rs s') as (news2 & Hrun2 & _ & Hin2).
  assert (news2 = []) as ->.
  { destruct news2 as [|r l]; [reflexivity|].
    destruct (Hin2 r) as [H _]. destruct (H (or_introl eq_refl)) as [Hr Hn].
    rewrite Forall_forall in Hall. rewrite (Hall r Hr) in Hn. discriminate Hn. }
  rewrite Hrun2. cbn [map]. rewrite app_nil_r. reflexivity.
Qed.

(** [deleteRelations] removes exactly the rows whose triple is listed and
    nothing else; it never throws.  Deleting the relations that
    [createRelations] has just stored, none of which was stored before,
    gives back the store as it was. *)
Theorem deleteRelations_undoes_create :
  forall (Embedding : Type) (rs : list Relation) (s : Enhanced.Store Embedding),
    Forall (fun r => relation_stored (Enhanced.tables s) r = false) rs ->
    Enhanced.deleteRelations rs (fst (Enhanced.createRelations rs s)) = (s, inr tt).
Proof.
  intros Embedding rs s Hnew. rewrite Forall_forall in Hnew.
  destruct (createRelations_run rs s) as (news & Hrun & _ & Hin).
  rewrite Hrun. cbn [fst]. rewrite deleteRelations_run.
  cbn [Enhanced.tables Enhanced.entities_vec Enhanced.tasks
       Sql.tbl_entities Sql.tbl_relations Sql.sqlite_sequence].
  rewrite filter_app.
  assert (H1 : filter (fun row => negb (row_listed rs row))
                      (Sql.tbl_relations (Enhanced.tables s))
               = Sql.tbl_relations (Enhanced.tables s)).
  { rewrite <- (filter_all (Sql.tbl_relations (Enhanced.tables s))) at 2.
    apply filter_ext_in. intros row Hrow. apply negb_true_iff.
    destruct (row_listed rs row) eqn:E; [|reflexivity].
    unfold row_listed in E. apply existsb_exists in E as (r & Hr & Hsame).
    apply same_triple_iff in Hsame. subst row.
    apply relation_stored_In in Hrow. rewrite (Hnew r Hr) in Hrow. discriminate. }
  assert (H2 : filter (fun row => negb (row_listed rs row)) (map relationRow news) = []).
  { apply filter_none_in. intros row Hrow. apply negb_false_iff.
    apply in_map_iff in Hrow as (r & <- & Hr). apply Hin in Hr as [Hr _].
    unfold row_listed. apply existsb_exists. exists r. split; [exact Hr|].
    now apply same_triple_iff. }
  rewrite H1, H2, app_nil_r. now destruct s as [[] ? ?].
Qed.

(** ** Deleting observations *)

Lemma basic_deleteObservations_step d ds db :
  Basic.deleteObservations (d :: ds) db
  = Basic.deleteObservations ds
      (match Sql.select_entity_by_name (del_entityName d) db with
       | Some row =>
           Sql.update_observations
             (JS.join "|||"
                (filter (fun o => negb (JS.includes (del_observations d) o))
                        (splitObservations (Sql.col_observations row))))
             (del_entityName d) db
       | None => db
       end).
Proof.
  unfold Basic.deleteObservations at 1. rewrite forEach_cons.
  unfold bind, query, exec.
  now destruct (Sql.select_entity_by_name (del_entityName d) db).
Qed.

Lemma basic_deleteObservations_total ds db :
  snd (Basic.deleteObservations ds db) = inr tt.
Proof.
  revert db. induction ds as [|d ds IH]; intros db; [reflexivity|].
  rewrite basic_deleteObservations_step. apply IH.
Qed.

Lemma observations_shrink_refl db : observations_shrink db db.
Proof.
  intros n. destruct (observationsOf n db) as [l|]; [|reflexivity].
  exists l. split; [reflexivity|apply incl_refl].
Qed.

Lemma observations_shrink_trans db1 db2 db3 :
  observations_shrink db1 db2 -> observations_shrink db2 db3 ->
  observations_shrink db1 db3.
Proof.
  intros H12 H23 n. specialize (H12 n). specialize (H23 n).
  destruct (observationsOf n db3) as [l3|].
  - destruct H23 as (l2 & E2 & I23). rewrite E2 in H12.
    destruct H12 as (l1 & E1 & I12). exists l1. split; [exact E1|].
    now apply incl_tran with l2.
  - rewrite H23 in H12. exact H12.
Qed.

Lemma deletion_idle_shrink db db' d :
  deletion_idle db d -> observations_shrink db db' -> deletion_idle db' d.
Proof.
  unfold deletion_idle. intros Hd Hs. specialize (Hs (del_entityName d)).
  destruct (observationsOf (del_entityName d) db') as [l'|]; [|exact I].
  destruct Hs as (l & E & Hincl). rewrite E in Hd.
  intros o Ho Hin. apply (Hd o Ho). now apply Hincl.
Qed.

(** One deletion on tables whose texts encode clean lists. *)
Lemma deleteObservations_turn d db row :
  observations_encoded db ->
  Sql.select_entity_by_name (del_entityName d) db = Some row ->
  let db' :=
    Sql.update_observations
      (JS.join "|||"
         (filter (fun o => negb (JS.includes (del_observations d) o))
                 (splitObservations (Sql.col_observations row))))
      (del_entityName d) db in
  observations_encoded db' /\ observations_shrink db db' /\ deletion_idle db' d.
Proof.
  intros Henc Hrow db'.
  pose proof (select_entity_by_name_In _ _ _ Hrow) as [Hin _].
  pose proof (decoded_clean _ (encoded_row _ _ Henc Hin)) as Hclean.
  set (kept := filter (fun o => negb (JS.includes (del_observations d) o))
                      (splitObservations (Sql.col_observations row))) in *.
  assert (Hkept : clean kept) by now apply clean_filter.
  assert (Hread : observationsOf (del_entityName d) db'
                  = Some (splitObservations (JS.join "|||" kept))).
  { unfold observationsOf, db'. now rewrite (select_after_update _ _ _ _ Hrow). }
  assert (Hsub : incl (splitObservations (JS.join "|||" kept)) kept).
  { destruct (splitObservations_join kept (proj2 Hkept)) as [->|[_ ->]];
      [apply incl_refl|intros x []]. }
  split; [|split].
  - apply update_observations_encoded; [now apply encodes_join|exact Henc].
  - intros n. destruct (String.eqb_spec n (del_entityName d)) as [->|Hn].
    + rewrite Hread. exists (splitObservations (Sql.col_observations row)).
      split; [unfold observationsOf; now rewrite Hrow|].
      intros x Hx. apply Hsub in Hx. now apply filter_In in Hx.
    + unfold observationsOf, db'. rewrite select_other_after_update by exact Hn.
      destruct (Sql.select_entity_by_name n db) as [r|]; [|reflexivity].
      eexists. split; [reflexivity|apply incl_refl].
  - unfold deletion_idle. rewrite Hread. intros o Ho Hx.
    apply Hsub in Hx. apply filter_In in Hx as [_ Hx].
    apply negb_true_iff in Hx.
    assert (JS.includes (del_observations d) o = true) by now apply includes_In.
    congruence.
Qed.

Lemma basic_deleteObservations_effect ds :
  forall db,
    observations_encoded db ->
    observations_encoded (fst (Basic.deleteObservations ds db))
    /\ observations_shrink db (fst (Basic.deleteObservations ds db))
    /\ Forall (deletion_idle (fst (Basic.deleteObservations ds db))) ds.
Proof.
  induction ds as [|d ds IH]; intros db Henc.
  - split; [exact Henc|]. split; [apply observations_shrink_refl|constructor].
  - rewrite basic_deleteObservations_step.
    destruct (Sql.select_entity_by_name (del_entityName d) db) as [row|] eqn:Hrow.
    + destruct (deleteObservations_turn d db row Henc Hrow) as (He1 & Hs1 & Hd1).
      destruct (IH _ He1) as (He2 & Hs2 & Hall).
      split; [exact He2|]. split; [now apply observations_shrink_trans with (2 := Hs2)|].
      constructor; [|exact Hall]. now apply deletion_idle_shrink with (2 := Hs2).
    + destruct (IH _ Henc) as (He2 & Hs2 & Hall).
      split; [exact He2|]. split; [exact Hs2|].
      constructor; [|exact Hall].
      apply deletion_idle_shrink with (2 := Hs2).
      unfold deletion_idle, observationsOf. now rewrite Hrow.
Qed.

Lemma update_observations_same n db row :
  unique_names db ->
  Sql.select_entity_by_name n db = Some row ->
  Sql.update_observations (Sql.col_observations row) n db = db.
Proof.
  intros Hu Hrow. apply select_entity_by_name_In in Hrow as [Hin Hn].
  unfold Sql.update_observations.
  assert (Hmap : map (fun r => if Sql.name_is n r
                               then Sql.mkEntityRow (Sql.id r) (Sql.col_name r)
                                      (Sql.col_entityType r) (Sql.col_observations row)
                               else r)
                     (Sql.tbl_entities db) = Sql.tbl_entities db).
  { rewrite <- (map_id (Sql.tbl_entities db)) at 2.
    apply map_ext_in. intros r Hr.
    destruct (Sql.name_is n r) eqn:E; [|reflexivity].
    unfold Sql.name_is in E. apply String.eqb_eq in E.
    assert (r = row) as -> by (apply (unique_names_same_row _ _ _ Hu Hr Hin); congruence).
    now destruct row. }
  rewrite Hmap. now destruct db.
Qed.

Section DeleteObservations.

Context {Embedding : Type}.
Implicit Types s : Enhanced.Store Embedding.

Lemma deleteObservations_step d ds s :
  Enhanced.deleteObservations (d :: ds) s
  = Enhanced.deleteObservations ds
      (match Sql.select_entity_by_name (del_entityName d) (Enhanced.tables s) with
       | Some row =>
           Enhanced.setTables
             (Sql.update_observations
                (JS.join "|||"
                   (filter (fun o => negb (JS.includes (del_observations d) o))
                           (splitObservations (Sql.col_observations row))))
                (del_entityName d)) s
       | None => s
       end).
Proof.
  unfold Enhanced.deleteObservations at 1. rewrite forEach_cons.
  unfold bind, query, exec, Enhanced.ofTables.
  now destruct (Sql.select_entity_by_name (del_entityName d) (Enhanced.tables s)).
Qed.

(** [deleteObservations] rewrites observation texts and nothing else: it
    spawns no task and leaves the index alone. *)
Lemma deleteObservations_frame ds s :
  map Sql.col_name
      (Sql.tbl_entities (Enhanced.tables (fst (Enhanced.deleteObservations ds s))))
  = map Sql.col_name (Sql.tbl_entities (Enhanced.tables s))
  /\ map Sql.col_entityType
         (Sql.tbl_entities (Enhanced.tables (fst (Enhanced.deleteObservations ds s))))
     = map Sql.col_entityType (Sql.tbl_entities (Enhanced.tables s))
  /\ Sql.tbl_relations (Enhanced.tables (fst (Enhanced.deleteObservations ds s)))
     = Sql.tbl_relations (Enhanced.tables s)
  /\ Enhanced.entities_vec (fst (Enhanced.deleteObservations ds s))
     = Enhanced.entities_vec s
  /\ Enhanced.tasks (fst (Enhanced.deleteObservations ds s)) = Enhanced.tasks s.
Proof.
  revert s. induction ds as [|d ds IH]; intros s; [now repeat split|].
  rewrite deleteObservations_step.
  destruct (Sql.select_entity_by_name (del_entityName d) (Enhanced.tables s))
    as [row|]; [|apply IH].
  destruct (IH (Enhanced.setTables
                  (Sql.update_observations
                     (JS.join "|||"
                        (filter (fun o => negb (JS.includes (del_observations d) o))
                                (splitObservations (Sql.col_observations row))))
                     (del_entityName d)) s)) as (H1 & H2 & H3 & H4 & H5).
  rewrite H1, H2, H3, H4, H5. cbn [Enhanced.setTables Enhanced.tables
    Enhanced.entities_vec Enhanced.tasks].
  destruct (update_observations_names
              (JS.join "|||"
                 (filter (fun o => negb (JS.includes (del_observations d) o))
                         (splitObservations (Sql.col_observations row))))
              (del_entityName d) (Enhanced.tables s)) as (Hn & _ & Hty).
  now repeat split.
Qed.

End DeleteObservations.

(** On a store whose observation texts encode lists without duplicates
    and without ['|'], [deleteObservations] never throws, and a read
    afterwards shows, for every deletion of the list, none of the
    observations it lists; it adds no entity and no observation.  Names
    and types of the entities, the relations, the index and the pending
    tasks are as before: unlike [addObservations] it schedules no new
    embedding. *)
Theorem deleteObservations_removes :
  forall (Embedding : Type) (ds : list Deletion) (s : Enhanced.Store Embedding),
    observations_encoded (Enhanced.tables s) ->
    snd (Enhanced.deleteObservations ds s) = inr tt
    /\ Forall (deletion_idle (Enhanced.tables (fst (Enhanced.deleteObservations ds s))))
              ds
    /\ observations_shrink (Enhanced.tables s)
         (Enhanced.tables (fst (Enhanced.deleteObservations ds s)))
    /\ observations_encoded (Enhanced.tables (fst (Enhanced.deleteObservations ds s)))
    /\ map Sql.col_name
           (Sql.tbl_entities
              (Enhanced.tables (fst (Enhanced.deleteObservations ds s))))
       = map Sql.col_name (Sql.tbl_entities (Enhanced.tables s))
    /\ Sql.tbl_relations (Enhanced.tables (fst (Enhanced.deleteObservations ds s)))
       = Sql.tbl_relations (Enhanced.tables s)
    /\ Enhanced.entities_vec (fst (Enhanced.deleteObservations ds s))
       = Enhanced.entities_vec s
    /\ Enhanced.tasks (fst (Enhanced.deleteObservations ds s)) = Enhanced.tasks s.
Proof.
  intros Embedding ds s Henc.
  destruct (agree_deleteObservations ds s) as [Ht Hr].
  destruct (basic_deleteObservations_effect ds _ Henc) as (He & Hs & Hd).
  destruct (deleteObservations_frame ds s) as (Hn & _ & Hrel & Hv & Hk).
  rewrite Ht, Hr.
  split; [apply basic_deleteObservations_total|].
  split; [exact Hd|]. split; [exact Hs|]. split; [exact He|].
  rewrite <- Ht. now repeat split.
Qed.

(** A deletion that names no stored entity, or lists none of the
    observations of the entity it names, changes nothing: on a store with
    unique entity names, [deleteObservations] with only such deletions
    returns the store exactly as it was, whatever the stored texts are. *)
Theorem deleteObservations_idle :
  forall (Embedding : Type) (ds : list Deletion) (s : Enhanced.Store Embedding),
    unique_names (Enhanced.tables s) ->
    Forall (deletion_idle (Enhanced.tables s)) ds ->
    Enhanced.deleteObservations ds s = (s, inr tt).
Proof.
  intros Embedding ds s Hu Hall.
  induction ds as [|d ds IH]; [reflexivity|].
  inversion Hall as [|? ? Hd Hds]; subst.
  rewrite deleteObservations_step.
  destruct (Sql.select_entity_by_name (del_entityName d) (Enhanced.tables s))
    as [row|] eqn:Hrow; [|now apply IH].
  assert (Hkeep : filter (fun o => negb (JS.includes (del_observations d) o))
                         (splitObservations (Sql.col_observations row))
                  = splitObservations (Sql.col_observations row)).
  { rewrite <- (filter_all (splitObservations (Sql.col_observations row))) at 2.
    apply filter_ext_in. intros x Hx. apply negb_true_iff.
    destruct (JS.includes (del_observations d) x) eqn:E; [|reflexivity].
    apply includes_In in E. unfold deletion_idle, observationsOf in Hd.
    rewrite Hrow in Hd. cbn [option_map] in Hd. now destruct (Hd x E). }
  rewrite Hkeep, join_split_text.
  unfold Enhanced.setTables.
  rewrite (update_observations_same _ _ _ Hu Hrow), store_eta. now apply IH.
Qed.

(** ** Deleting what is not there *)

Lemma filter_keeps_all {A : Type} (f : A -> bool) (l : list A) :
  (forall x, In x l -> f x = true) -> filter f l = l.
Proof.
  intros H. rewrite <- (filter_all l) at 2. now apply filter_ext_in.
Qed.

(** [deleteEntities] and [deleteRelations] are silent on what is not
    stored: when no listed name is the name of an entity or an endpoint of
    a relation, and no listed relation is stored, both return the store
    exactly as it was. *)
Theorem deletes_skip_missing :
  forall (Embedding : Type) (names : list string) (rs : list Relation)
         (s : Enhanced.Store Embedding),
    Forall (fun n => Sql.select_entity_by_name n (Enhanced.tables s) = None) names ->
    Forall (fun row => ~ In (Sql.from_entity row) names /\ ~ In (Sql.to_entity row) names)
           (Sql.tbl_relations (Enhanced.tables s)) ->
    Forall (fun r => relation_stored (Enhanced.tables s) r = false) rs ->
    Enhanced.deleteEntities names s = (s, inr tt)
    /\ Enhanced.deleteRelations rs s = (s, inr tt).
Proof.
  intros Embedding names rs s Hnames Hrels Hrs. split.
  - induction names as [|n names IH]; [reflexivity|].
    inversion Hnames as [|? ? Hn Hnames']; subst.
    rewrite deleteEntities_step, Hn.
    assert (He : Sql.delete_entity n (Enhanced.tables s) = Enhanced.tables s).
    { unfold Sql.delete_entity. rewrite filter_keeps_all; [now destruct (Enhanced.tables s)|].
      intros r Hr. apply negb_true_iff.
      unfold Sql.select_entity_by_name in Hn. exact (find_none _ _ Hn r Hr). }
    assert (Hr : Sql.delete_relations_touching n n (Enhanced.tables s)
                 = Enhanced.tables s).
    { unfold Sql.delete_relations_touching.
      rewrite filter_keeps_all; [now destruct (Enhanced.tables s)|].
      intros row Hrow. rewrite Forall_forall in Hrels.
      destruct (Hrels row Hrow) as [Hf Ht].
      apply negb_true_iff, orb_false_iff. split; apply String.eqb_neq.
      - intros E. apply Hf. now left.
      - intros E. apply Ht. now left. }
    unfold Enhanced.setTables at 2. rewrite He, store_eta.
    unfold Enhanced.setTables. rewrite Hr, store_eta.
    apply IH; [exact Hnames'|].
    apply Forall_forall. intros row Hrow. rewrite Forall_forall in Hrels.
    destruct (Hrels row Hrow) as [Hf Ht].
    split; intros Hin; [apply Hf|apply Ht]; now right.
  - rewrite deleteRelations_run, filter_keeps_all; [now destruct s as [[] ? ?]|].
    intros row Hrow. apply negb_true_iff.
    destruct (row_listed rs row) eqn:E; [|reflexivity].
    unfold row_listed in E. apply existsb_exists in E as (r & Hr & Hsame).
    apply same_triple_iff in Hsame. subst row.
    apply relation_stored_In in Hrow. rewrite Forall_forall in Hrs.
    rewrite (Hrs r Hr) in Hrow. discriminate.
Qed.

(** ** Opening nodes *)

Lemma openNodes_run {Embedding : Type} names (s : Enhanced.Store Embedding) :
  Enhanced.openNodes names s
  = (s,
     if (Sql.SQLITE_MAX_VARIABLE_NUMBER <? Z.of_nat (length names + length names))%Z
     then inl (SqliteError "too many SQL variables")
     else inr (mkGraph
                 (map rowToEntity (Sql.select_entities_named names (Enhanced.tables s)))
                 (map rowToRelation
                    (Sql.select_relations_between names names (Enhanced.tables s))))).
Proof.
  unfold Enhanced.openNodes. destruct names as [|n names].
  - cbn [length Nat.eqb Nat.add]. unfold ret, emptyGraph.
    unfold Sql.select_entities_named. rewrite filter_none by reflexivity.
    now rewrite select_relations_between_nil.
  - remember (n :: names) as l eqn:Hl.
    assert ((length l =? 0)%nat = false) as -> by (subst l; reflexivity).
    unfold bind, prepared, attempt, query, Enhanced.ofTables, Sql.prepare_placeholders.
    destruct (Sql.SQLITE_MAX_VARIABLE_NUMBER <? Z.of_nat (length l))%Z eqn:E1.
    + assert ((Sql.SQLITE_MAX_VARIABLE_NUMBER <? Z.of_nat (length l + length l))%Z
              = true) as ->; [|reflexivity].
      apply Z.ltb_lt in E1. apply Z.ltb_lt. lia.
    + destruct (Sql.SQLITE_MAX_VARIABLE_NUMBER <? Z.of_nat (length l + length l))%Z;
        reflexivity.
Qed.

(** [openNodes] with at most 16383 names is the full read restricted to
    the requested names: it returns the stored entities whose name is
    requested, in the order of the index on [name], and the stored
    relations whose two endpoints are requested names, in the order of the
    index on the triple, whether or not entities of these names exist.  A
    requested name that is not stored is left out without an error; an
    empty request gives the empty graph.  With more names the statement
    for the relations has more placeholders than SQLite accepts and the
    call throws.  The store is not touched. *)
Theorem openNodes_restricts_read :
  forall (Embedding : Type) (names : list string) (s : Enhanced.Store Embedding),
  exists g,
    Enhanced.openNodes names s
    = (s, if (16383 <? Z.of_nat (length names))%Z
          then inl (SqliteError "too many SQL variables")
          else inr g)
    /\ entities g
       = map rowToEntity
           (Sql.index_order Sql.by_name
              (filter (fun r => Sql.text_in names (Sql.col_name r))
                      (Sql.tbl_entities (Enhanced.tables s))))
    /\ relations g
       = map rowToRelation
           (Sql.index_order Sql.by_triple
              (filter (fun r => Sql.text_in names (Sql.from_entity r)
                                && Sql.text_in names (Sql.to_entity r))
                      (Sql.tbl_relations (Enhanced.tables s))))
    /\ (forall e, In e (entities g)
                  <-> In e (entities (graphOf (Enhanced.tables s)))
                      /\ In (name e) names)
    /\ (forall r, In r (relations g)
                  <-> In r (relations (graphOf (Enhanced.tables s)))
                      /\ In (from r) names /\ In (to r) names)
    /\ (forall n, In n (map name (entities g))
                  <-> In n names
                      /\ Sql.select_entity_by_name n (Enhanced.tables s) <> None).
Proof.
  intros Embedding names s.
  exists (mkGraph
            (map rowToEntity (Sql.select_entities_named names (Enhanced.tables s)))
            (map rowToRelation
               (Sql.select_relations_between names names (Enhanced.tables s)))).
  assert (Hnamed : forall r, In r (Sql.select_entities_named names (Enhanced.tables s))
                             <-> In r (Sql.tbl_entities (Enhanced.tables s))
                                 /\ In (Sql.col_name r) names).
  { intros r. unfold Sql.select_entities_named.
    now rewrite index_order_In, filter_In, text_in_In. }
  split; [|split; [|split; [|split; [|split]]]].
  - rewrite openNodes_run.
    assert ((Sql.SQLITE_MAX_VARIABLE_NUMBER <? Z.of_nat (length names + length names))%Z
            = (16383 <? Z.of_nat (length names))%Z) as ->; [|reflexivity].
    unfold Sql.SQLITE_MAX_VARIABLE_NUMBER.
    destruct (16383 <? Z.of_nat (length names))%Z eqn:E.
    + apply Z.ltb_lt in E. apply Z.ltb_lt. lia.
    + apply Z.ltb_ge in E. apply Z.ltb_ge. lia.
  - reflexivity.
  - reflexivity.
  - intros e. cbn [entities graphOf]. split.
    + intros He. apply in_map_iff in He as (r & <- & Hr). apply Hnamed in Hr.
      destruct Hr as [Hr Hn]. split; [now apply in_map|exact Hn].
    + intros [He Hn]. apply in_map_iff in He as (r & <- & Hr).
      apply in_map. apply Hnamed. now split.
  - intros r. cbn [relations graphOf]. split.
    + intros Hr. apply in_map_iff in Hr as (row & <- & Hrow).
      apply select_relations_between_In in Hrow.
      destruct Hrow as (Hin & Hf & Ht). split; [now apply in_map|].
      split; [exact Hf|exact Ht].
    + intros (Hr & Hf & Ht). apply in_map_iff in Hr as (row & <- & Hrow).
      apply in_map. apply select_relations_between_In. split; [exact Hrow|].
      split; [exact Hf|exact Ht].
  - intros n. cbn [entities]. rewrite map_map.
    change (map (fun x => name (rowToEntity x))) with (map Sql.col_name).
    split.
    + intros Hn. apply in_map_iff in Hn as (r & <- & Hr). apply Hnamed in Hr.
      destruct Hr as [Hr Hn]. split; [exact Hn|].
      unfold Sql.select_entity_by_name. intros Hnone.
      pose proof (find_none _ _ Hnone r Hr) as H. unfold Sql.name_is in H.
      now rewrite String.eqb_refl in H.
    + intros [Hn Hsome].
      destruct (Sql.select_entity_by_name n (Enhanced.tables s)) as [r|] eqn:E;
        [|congruence].
      apply select_entity_by_name_In in E as [Hr <-].
      apply in_map. apply Hnamed. now split.
Qed.

(** ** What every reachable store satisfies *)

Lemma NoDup_map_relationRow l : NoDup l -> NoDup (map relationRow l).
Proof.
  induction 1 as [|r l Hr Hnd IH]; [constructor|].
  cbn. constructor; [|exact IH].
  intros Hx. apply in_map_iff in Hx as (r' & E & Hr').
  apply relationRow_injective in E. now subst.
Qed.

Lemma deleteObservations_sequence {Embedding : Type} ds
    (s : Enhanced.Store Embedding) :
  Sql.sqlite_sequence (Enhanced.tables (fst (Enhanced.deleteObservations ds s)))
  = Sql.sqlite_sequence (Enhanced.tables s).
Proof.
  revert s. induction ds as [|d ds IH]; intros s; [reflexivity|].
  rewrite deleteObservations_step.
  destruct (Sql.select_entity_by_name _ _); now rewrite IH.
Qed.

Section Consistency.

Context {Embedding : Type} (generateEmbedding : string -> Error + Embedding).
Implicit Types s : Enhanced.Store Embedding.

Lemma createEntities_consistent es s :
  consistent s -> consistent (fst (Enhanced.createEntities es s)).
Proof. now rewrite createEntities_store. Qed.

Lemma consistent_only_relations s s' :
  only_relations_differ s s' -> unique_relations (Enhanced.tables s') ->
  consistent s -> consistent s'.
Proof.
  intros (He & Hq & Hv & Hk) Hrel [Hwf _ Hnd Hids Htasks]. split.
  - exact (well_formed_same_entities _ _ He Hq Hwf).
  - exact Hrel.
  - now rewrite Hv.
  - now rewrite Hv, Hq.
  - now rewrite Hk, Hq.
Qed.

Lemma createRelations_consistent rs s :
  consistent s -> consistent (fst (Enhanced.createRelations rs s)).
Proof.
  intros Hc. apply consistent_only_relations with (s := s);
    [apply createRelations_frame| |exact Hc].
  destruct (createRelations_run rs s) as (news & Hrun & Hnd & Hin).
  rewrite Hrun. unfold unique_relations. cbn.
  apply NoDup_app.
  - apply Hc.
  - now apply NoDup_map_relationRow.
  - intros row Hrow Hnew. apply in_map_iff in Hnew as (r & <- & Hr).
    apply Hin in Hr as [_ Hr]. apply relation_stored_In in Hrow. congruence.
Qed.

Lemma deleteRelations_consistent rs s :
  consistent s -> consistent (fst (Enhanced.deleteRelations rs s)).
Proof.
  intros Hc. apply consistent_only_relations with (s := s);
    [apply deleteRelations_frame| |exact Hc].
  rewrite deleteRelations_run. unfold unique_relations. cbn.
  apply NoDup_filter. apply Hc.
Qed.

Lemma addObservationsTo_tasks o s :
  exists extra,
    Enhanced.tasks (fst (Enhanced.addObservationsTo o s)) = (Enhanced.tasks s ++ extra)%list
    /\ Forall (fun t => exists row, In row (Sql.tbl_entities (Enhanced.tables s))
                                    /\ task_rowid t = Sql.id row) extra.
Proof.
  unfold Enhanced.addObservationsTo, bind, query, Enhanced.ofTables.
  destruct (Sql.select_entity_by_name (entityName o) (Enhanced.tables s))
    as [row|] eqn:Hrow; [|exists []; now rewrite app_nil_r].
  cbv zeta. destruct (0 <? length _)%nat; [|exists []; now rewrite app_nil_r].
  unfold exec. cbn [fst snd].
  destruct (Sql.select_entity_by_id _ _) as [current|].
  - eexists [_]. split; [reflexivity|].
    constructor; [|constructor]. exists row.
    split; [now apply select_entity_by_name_In in Hrow|reflexivity].
  - exists []. cbn. now rewrite app_nil_r.
Qed.

Lemma addObservationsTo_consistent o s :
  consistent s -> consistent (fst (Enhanced.addObservationsTo o s)).
Proof.
  intros Hc. destruct Hc as [Hwf Hrel Hnd Hids Htasks].
  destruct (addObservationsTo_tasks o s) as (extra & Hextra & Hrows).
  assert (Hsame : Sql.tbl_relations (Enhanced.tables (fst (Enhanced.addObservationsTo o s)))
                  = Sql.tbl_relations (Enhanced.tables s)
                  /\ Sql.sqlite_sequence
                       (Enhanced.tables (fst (Enhanced.addObservationsTo o s)))
                     = Sql.sqlite_sequence (Enhanced.tables s)).
  { rewrite addObservationsTo_tables.
    destruct (Sql.select_entity_by_name _ _); [|now split].
    cbv zeta. destruct (0 <? _)%nat; now split. }
  destruct Hsame as [Hr Hq]. split.
  - now apply addObservationsTo_well_formed.
  - unfold unique_relations. now rewrite Hr.
  - now rewrite addObservationsTo_vec.
  - now rewrite addObservationsTo_vec, Hq.
  - rewrite Hextra, Hq. apply Forall_app. split; [exact Htasks|].
    eapply Forall_impl; [|exact Hrows]. cbv beta.
    intros t (row & Hin & ->).
    destruct Hwf as [_ _ Hseq]. unfold ids_in_sequence in Hseq.
    rewrite Forall_forall in Hseq. now apply Hseq.
Qed.

Lemma addObservations_consistent obs s :
  consistent s -> consistent (fst (Enhanced.addObservations obs s)).
Proof.
  rewrite addObservations_fst. apply mapM_preserves.
  intros o t _ Ht. rewrite async_fst. now apply addObservationsTo_consistent.
Qed.

Lemma deleteObservations_consistent ds s :
  consistent s -> consistent (fst (Enhanced.deleteObservations ds s)).
Proof.
  intros [Hwf Hrel Hnd Hids Htasks].
  destruct (deleteObservations_frame ds s) as (_ & _ & Hr & Hv & Hk).
  pose proof (deleteObservations_sequence ds s) as Hq.
  split.
  - now apply deleteObservations_well_formed.
  - unfold unique_relations. now rewrite Hr.
  - now rewrite Hv.
  - now rewrite Hv, Hq.
  - now rewrite Hk, Hq.
Qed.

End Consistency.

Section Consistency2.

Context {Embedding : Type} (generateEmbedding : string -> Error + Embedding).
Implicit Types s : Enhanced.Store Embedding.

Lemma delete_vec_consistent i s : consistent s -> consistent (Enhanced.delete_vec i s).
Proof.
  intros [Hwf Hrel Hnd Hids Htasks]. split; cbn; try assumption.
  - now apply NoDup_map_filter.
  - rewrite Forall_forall in *. intros v Hv. apply filter_In in Hv as [Hv _].
    now apply Hids.
Qed.

Lemma delete_entity_consistent n s :
  consistent s -> consistent (Enhanced.setTables (Sql.delete_entity n) s).
Proof.
  intros [Hwf Hrel Hnd Hids Htasks]. split; cbn; try assumption.
  now apply delete_entity_well_formed.
Qed.

Lemma delete_relations_touching_consistent n1 n2 s :
  consistent s ->
  consistent (Enhanced.setTables (Sql.delete_relations_touching n1 n2) s).
Proof.
  intros [Hwf Hrel Hnd Hids Htasks]. split; cbn; try assumption.
  - destruct Hwf as [H1 H2 H3]. now split.
  - unfold unique_relations. cbn. now apply NoDup_filter.
Qed.

Lemma deleteEntities_consistent names s :
  consistent s -> consistent (fst (Enhanced.deleteEntities names s)).
Proof.
  revert s. induction names as [|n names IH]; intros s Hc; [exact Hc|].
  rewrite deleteEntities_step. apply IH.
  apply delete_relations_touching_consistent, delete_entity_consistent.
  destruct (Sql.select_entity_by_name n (Enhanced.tables s)); [|exact Hc].
  now apply delete_vec_consistent.
Qed.

Lemma runTask_consistent t s :
  consistent s -> consistent (Enhanced.runTask generateEmbedding t s).
Proof. now rewrite runTask_idle. Qed.

Lemma resume_consistent n s :
  consistent s -> consistent (Enhanced.resume generateEmbedding n s).
Proof.
  intros Hc. unfold Enhanced.resume.
  destruct (nth_error (Enhanced.tasks s) n) as [t|] eqn:Hn; [|exact Hc].
  destruct Hc as [Hwf Hrel Hnd Hids Htasks].
  apply runTask_consistent.
  split; cbn; try assumption.
  rewrite Forall_forall in *. intros u Hu. apply Htasks.
  apply in_app_or in Hu as [Hu|Hu].
  - rewrite <- (firstn_skipn n (Enhanced.tasks s)). apply in_or_app. now left.
  - rewrite <- (firstn_skipn (S n) (Enhanced.tasks s)). apply in_or_app. now right.
Qed.

Lemma perform_consistent c s :
  consistent s -> consistent (perform generateEmbedding c s).
Proof.
  intros Hc. destruct c as [es|rs|obs|names|ds|rs|n]; cbn [perform].
  - now apply createEntities_consistent.
  - now apply createRelations_consistent.
  - now apply addObservations_consistent.
  - now apply deleteEntities_consistent.
  - now apply deleteObservations_consistent.
  - now apply deleteRelations_consistent.
  - now apply resume_consistent.
Qed.

Lemma performAll_consistent cs s :
  consistent s -> consistent (performAll generateEmbedding cs s).
Proof.
  revert s. induction cs as [|c cs IH]; intros s Hc; [exact Hc|].
  cbn. apply IH. now apply perform_consistent.
Qed.

Lemma consistent_empty : consistent (@Enhanced.emptyStore Embedding).
Proof. split; try constructor; constructor. Qed.

End Consistency2.

(** Whatever calls the vector server has served since the database was
    created, interleaved with its background tasks in any order, and
    whether they returned or threw: the entity names are unique, so are the
    entity ids, none of which exceeds the last id given out; no relation
    is stored twice; the index holds at most one embedding per id; and no
    embedding and no pending task belongs to an id not given out yet.  The
    same holds of the calls served on any store that satisfies these
    conditions to begin with. *)
Theorem reachable_consistent :
  forall (Embedding : Type) (generateEmbedding : string -> Error + Embedding)
         (calls : list Call),
    consistent (performAll generateEmbedding calls Enhanced.emptyStore)
    /\ (forall s : Enhanced.Store Embedding,
          consistent s -> consistent (performAll generateEmbedding calls s)).
Proof.
  intros Embedding generateEmbedding calls. split.
  - apply performAll_consistent, consistent_empty.
  - intros s. apply performAll_consistent.
Qed.

(** ** The vector index *)

Lemma remove_last {A : Type} (l : list A) (x : A) :
  nth_error (l ++ [x]) (length l) = Some x
  /\ (firstn (length l) (l ++ [x]) ++ skipn (S (length l)) (l ++ [x]))%list = l.
Proof.
  split.
  - rewrite nth_error_app2 by lia. now rewrite Nat.sub_diag.
  - rewrite firstn_app, Nat.sub_diag, firstn_all. cbn [firstn].
    rewrite skipn_app, skipn_all2 by lia.
    assert (S (length l) - length l = 1) as -> by lia.
    cbn. now rewrite !app_nil_r.
Qed.

Lemma resume_last {Embedding : Type} (generateEmbedding : string -> Error + Embedding)
    tables vec tasks t :
  Enhanced.resume generateEmbedding (length tasks)
    (Enhanced.mkStore tables vec (tasks ++ [t]))
  = Enhanced.runTask generateEmbedding t (Enhanced.mkStore tables vec tasks).
Proof.
  unfold Enhanced.resume. cbn [Enhanced.tasks Enhanced.tables Enhanced.entities_vec].
  destruct (remove_last tasks t) as [-> ->]. reflexivity.
Qed.

Section Index.

Context {Embedding : Type} (generateEmbedding : string -> Error + Embedding).
Implicit Types s : Enhanced.Store Embedding.

Lemma deleteEntities_index names s v :
  In v (Enhanced.entities_vec (fst (Enhanced.deleteEntities names s))) ->
  In v (Enhanced.entities_vec s).
Proof.
  revert s. induction names as [|n names IH]; intros s; [trivial|].
  rewrite deleteEntities_step. intros H. apply IH in H. cbn in H.
  destruct (Sql.select_entity_by_name n (Enhanced.tables s)); [|exact H].
  cbn in H. now apply filter_In in H.
Qed.

Lemma resume_index n s :
  Enhanced.entities_vec (Enhanced.resume generateEmbedding n s) = Enhanced.entities_vec s.
Proof.
  unfold Enhanced.resume. destruct (nth_error _ n); [|reflexivity].
  now rewrite runTask_idle.
Qed.

Lemma perform_index c s v :
  In v (Enhanced.entities_vec (perform generateEmbedding c s)) ->
  In v (Enhanced.entities_vec s).
Proof.
  destruct c as [es|rs|obs|names|ds|rs|n]; cbn [perform].
  - now rewrite createEntities_store.
  - destruct (createRelations_frame rs s) as (_ & _ & -> & _). trivial.
  - now rewrite addObservations_vec.
  - apply deleteEntities_index.
  - destruct (deleteObservations_frame ds s) as (_ & _ & _ & -> & _).
    trivial.
  - destruct (deleteRelations_frame rs s) as (_ & _ & -> & _). trivial.
  - now rewrite resume_index.
Qed.

Lemma performAll_index cs s v :
  In v (Enhanced.entities_vec (performAll generateEmbedding cs s)) ->
  In v (Enhanced.entities_vec s).
Proof.
  revert s. induction cs as [|c cs IH]; intros s; [trivial|].
  cbn. intros H. now apply IH, perform_index in H.
Qed.

End Index.

(** The vector-enabled server never writes an embedding.  Whatever calls
    it serves and whichever of its background closures resume, every
    record of the index afterwards was in the index before: entity creation
    throws before its first INSERT, and both closures throw at their first
    statement, which binds [embedding.buffer], inside the [try] that logs
    the error.  A database the server started empty therefore has an empty
    index for ever, whatever [readGraph] shows. *)
Theorem index_never_written :
  forall (Embedding : Type) (generateEmbedding : string -> Error + Embedding)
         (calls : list Call),
    (forall (s : Enhanced.Store Embedding) v,
        In v (Enhanced.entities_vec (performAll generateEmbedding calls s)) ->
        In v (Enhanced.entities_vec s))
    /\ Enhanced.entities_vec (performAll generateEmbedding calls Enhanced.emptyStore) = []
    /\ (forall (t : Enhanced.Task) (s : Enhanced.Store Embedding),
          Enhanced.runTask generateEmbedding t s = s).
Proof.
  intros Embedding generateEmbedding calls.
  split; [|split].
  - intros s v. apply performAll_index.
  - destruct (Enhanced.entities_vec
                (performAll generateEmbedding calls Enhanced.emptyStore))
      as [|v l] eqn:E; [reflexivity|].
    assert (In v (Enhanced.entities_vec (@Enhanced.emptyStore Embedding))) as []%in_nil.
    apply (performAll_index generateEmbedding calls). rewrite E. now left.
  - intros t s. apply runTask_idle.
Qed.

(** ** Creating several entities *)

Lemma name_stored_text_in n (l : list Sql.EntityRow) :
  existsb (Sql.name_is n) l = Sql.text_in (map Sql.col_name l) n.
Proof.
  unfold Sql.text_in. induction l as [|r l IH]; [reflexivity|].
  cbn. rewrite IH. unfold Sql.name_is. now rewrite String.eqb_sym.
Qed.

Lemma basic_createEntities_from es :
  forall acc db,
    forPush
      (fun entity =>
         bind (run (Sql.insert_or_ignore_entity (name entity) (entityType entity)
                      (JS.join "|||" (observations entity))))
              (fun result =>
                 if (0 <? Sql.changes result)%nat then ret (Some entity) else ret None))
      es acc db
    = (Sql.mkTables
         (Sql.tbl_entities db
          ++ inserted_rows (map Sql.col_name (Sql.tbl_entities db))
               (Sql.sqlite_sequence db) es)
         (Sql.tbl_relations db)
         (Sql.sqlite_sequence db + Z.of_nat (length es)),
       inr (acc ++ first_new (map Sql.col_name (Sql.tbl_entities db)) es)%list).
Proof.
  induction es as [|e es IH]; intros acc db.
  - cbn. rewrite !app_nil_r, Z.add_0_r. now destruct db.
  - rewrite forPush_cons. cbv beta. rewrite basic_createEntities_turn.
    cbn [first_new inserted_rows]. rewrite <- name_stored_text_in.
    destruct (existsb (Sql.name_is (name e)) (Sql.tbl_entities db)).
    + rewrite IH. unfold skipped.
      cbn [Sql.tbl_entities Sql.tbl_relations Sql.sqlite_sequence length].
      do 2 f_equal. lia.
    + rewrite IH. unfold created.
      cbn [Sql.tbl_entities Sql.tbl_relations Sql.sqlite_sequence length].
      rewrite map_app. cbn [map Sql.col_name].
      rewrite <- !app_assoc. cbn [app].
      do 2 f_equal. lia.
Qed.

Lemma inserted_rows_names es :
  forall seen seq,
    map Sql.col_name (inserted_rows seen seq es) = map name (first_new seen es).
Proof.
  induction es as [|e es IH]; intros seen seq; [reflexivity|].
  cbn [inserted_rows first_new]. destruct (Sql.text_in seen (name e)).
  - apply IH.
  - cbn [map Sql.col_name]. now rewrite IH.
Qed.

Lemma inserted_rows_cover es e :
  In e es ->
  forall seen seq,
    In (name e) seen \/ In (name e) (map Sql.col_name (inserted_rows seen seq es)).
Proof.
  induction es as [|x es IH]; intros Hin seen seq; [destruct Hin|].
  cbn [inserted_rows]. destruct (Sql.text_in seen (name x)) eqn:Hseen.
  - destruct Hin as [->|Hin]; [left; now apply text_in_In|now apply IH].
  - cbn [map Sql.col_name]. destruct Hin as [->|Hin]; [right; now left|].
    destruct (IH Hin (seen ++ [name x])%list (seq + 1)%Z) as [H|H].
    + apply in_app_or in H as [H|[<-|[]]]; [now left|right; now left].
    + right. now right.
Qed.

Lemma inserted_rows_ids es :
  forall seen seq,
    Forall (fun r => (seq < Sql.id r <= seq + Z.of_nat (length es))%Z)
           (inserted_rows seen seq es).
Proof.
  induction es as [|e es IH]; intros seen seq; [constructor|].
  cbn [inserted_rows length].
  destruct (Sql.text_in seen (name e)).
  - eapply Forall_impl; [|apply (IH seen (seq + 1)%Z)]. cbv beta. intros r Hr. lia.
  - constructor; [cbn; lia|].
    eapply Forall_impl; [|apply (IH (seen ++ [name e])%list (seq + 1)%Z)].
    cbv beta. intros r Hr. lia.
Qed.

(** The lexical [createEntities] on a list: it returns, in input order,
    the first entity of each name that is not stored yet, and appends one
    row for each of them after the rows already there, which it leaves
    alone.  Every entity of the list uses up one id of the sequence, also
    those passed over because their name is stored or comes earlier in the
    list: the ids of the new rows increase but need not be consecutive,
    and the sequence ends higher by the length of the list.  No entity is
    refused with an error, and every listed name is stored afterwards. *)
Theorem createEntities_bulk :
  forall (es : list Entity) (db : Sql.Tables),
    let seen := map Sql.col_name (Sql.tbl_entities db) in
    let rows := inserted_rows seen (Sql.sqlite_sequence db) es in
    Basic.createEntities es db
    = (Sql.mkTables
         (Sql.tbl_entities db ++ rows)
         (Sql.tbl_relations db)
         (Sql.sqlite_sequence db + Z.of_nat (length es)),
       inr (first_new seen es))
    /\ map Sql.col_name rows = map name (first_new seen es)
    /\ Forall (fun r => (Sql.sqlite_sequence db < Sql.id r
                         <= Sql.sqlite_sequence db + Z.of_nat (length es))%Z) rows
    /\ Forall (fun e =>
                 Sql.select_entity_by_name (name e) (fst (Basic.createEntities es db))
                 <> None)
              es.
Proof.
  intros es db seen rows.
  assert (Hrun : Basic.createEntities es db
                 = (Sql.mkTables
                      (Sql.tbl_entities db ++ rows)
                      (Sql.tbl_relations db)
                      (Sql.sqlite_sequence db + Z.of_nat (length es)),
                    inr (first_new seen es))).
  { unfold Basic.createEntities. now rewrite basic_createEntities_from. }
  split; [exact Hrun|]. split; [apply inserted_rows_names|].
  split; [apply inserted_rows_ids|].
  apply Forall_forall. intros e He. rewrite Hrun. cbn [fst].
  unfold Sql.select_entity_by_name. cbn [Sql.tbl_entities]. intros Hnone.
  assert (Hin : In (name e) (map Sql.col_name (Sql.tbl_entities db ++ rows))).
  { rewrite map_app. apply in_or_app.
    exact (inserted_rows_cover es e He seen (Sql.sqlite_sequence db)). }
  apply in_map_iff in Hin as (r & Hr & Hin).
  pose proof (find_none _ _ Hnone r Hin) as H. unfold Sql.name_is in H.
  rewrite Hr, String.eqb_refl in H. discriminate H.
Qed.

(** ** Adding the same observations again *)

Lemma addObservationsTo_nothing_new {Embedding : Type} o
    (s : Enhanced.Store Embedding) row :
  Sql.select_entity_by_name (entityName o) (Enhanced.tables s) = Some row ->
  filter (fun content =>
            negb (JS.includes (splitObservations (Sql.col_observations row)) content))
         (contents o) = [] ->
  Enhanced.addObservationsTo o s = (s, inr (mkResult (entityName o) [])).
Proof.
  intros Hsel Hnew. unfold Enhanced.addObservationsTo, bind, query, Enhanced.ofTables.
  rewrite Hsel. cbv zeta. rewrite Hnew. reflexivity.
Qed.

(** [addObservations] is idempotent on an existing entity: calling it a
    second time with the same item adds nothing and leaves the store,
    pending tasks included, as the first call left it.  This needs the
    strings involved to be free of ['|'], and fails for the contents
    [[""]] on an entity without observations, which stores the empty text
    again. *)
Theorem addObservations_again :
  forall (Embedding : Type) (o : ObservationInput)
         (s : Enhanced.Store Embedding) (row : Sql.EntityRow),
    Sql.select_entity_by_name (entityName o) (Enhanced.tables s) = Some row ->
    all_no_pipe (splitObservations (Sql.col_observations row)) ->
    all_no_pipe (contents o) ->
    contents o <> [""] \/ Sql.col_observations row <> "" ->
    Enhanced.addObservations [o] (fst (Enhanced.addObservations [o] s))
    = (fst (Enhanced.addObservations [o] s), inr [mkResult (entityName o) []]).
Proof.
  intros Embedding o s row Hsel Hex Hco Hne.
  remember (splitObservations (Sql.col_observations row)) as existing eqn:Hexi.
  remember (filter (fun content => negb (JS.includes existing content)) (contents o))
    as new eqn:Hnew.
  assert (H1 : fst (Enhanced.addObservations [o] s)
               = fst (Enhanced.addObservationsTo o s)).
  { now rewrite addObservations_single. }
  rewrite H1.
  destruct new as [|n0 new'].
  - assert (Hn : filter (fun content =>
                           negb (JS.includes
                                   (splitObservations (Sql.col_observations row)) content))
                        (contents o) = []).
    { rewrite <- Hexi. now symmetry. }
    rewrite (addObservationsTo_nothing_new o s row Hsel Hn). cbn [fst].
    rewrite addObservations_single.
    now rewrite (addObservationsTo_nothing_new o s row Hsel Hn).
  - pose proof (addObservationsTo_tables o s) as Ht. rewrite Hsel in Ht.
    cbv zeta in Ht. rewrite <- Hexi, <- Hnew in Ht.
    cbn [length Nat.ltb Nat.leb] in Ht.
    set (s1 := fst (Enhanced.addObservationsTo o s)) in *.
    assert (Hsel1 : Sql.select_entity_by_name (entityName o) (Enhanced.tables s1)
                    = Some (Sql.mkEntityRow (Sql.id row) (Sql.col_name row)
                              (Sql.col_entityType row)
                              (JS.join "|||" (existing ++ n0 :: new')%list))).
    { rewrite Ht. now apply select_after_update. }
    assert (Hall : all_no_pipe (existing ++ n0 :: new')).
    { unfold all_no_pipe in *. apply Forall_app. split; [exact Hex|].
      rewrite Hnew. rewrite Forall_forall in *.
      intros x Hx. apply filter_In in Hx. now apply Hco. }
    assert (Hnb : (existing ++ n0 :: new')%list <> [""]).
    { intros Hb. destruct existing as [|x ex].
      - cbn in Hb. destruct Hne as [Hc|Hr].
        + apply Hc. rewrite <- Hb, Hnew. symmetry. apply filter_all.
        + apply Hr. now apply splitObservations_nil.
      - cbn in Hb. destruct ex; discriminate Hb. }
    assert (Hnone : filter
                      (fun content =>
                         negb (JS.includes
                                 (splitObservations
                                    (Sql.col_observations
                                       (Sql.mkEntityRow (Sql.id row) (Sql.col_name row)
                                          (Sql.col_entityType row)
                                          (JS.join "|||" (existing ++ n0 :: new')%list))))
                                 content))
                      (contents o) = []).
    { cbn [Sql.col_observations].
      rewrite (splitObservations_join_exact _ Hall Hnb).
      apply filter_none_in. intros c Hc.
      apply negb_false_iff. apply includes_In. apply in_or_app.
      destruct (JS.includes existing c) eqn:Hi.
      - left. now apply includes_In.
      - right. rewrite Hnew. apply filter_In. split; [exact Hc|].
        now rewrite Hi. }
    rewrite addObservations_single.
    now rewrite (addObservationsTo_nothing_new o s1 _ Hsel1 Hnone).
Qed.

(** ** The embedding of an entity that gained observations *)

Lemma select_by_id_after_update text n db row :
  unique_ids db ->
  Sql.select_entity_by_name n db = Some row ->
  Sql.select_entity_by_id (Sql.id row) (Sql.update_observations text n db)
  = Some (Sql.mkEntityRow (Sql.id row) (Sql.col_name row) (Sql.col_entityType row) text).
Proof.
  unfold unique_ids, Sql.select_entity_by_name, Sql.select_entity_by_id,
    Sql.update_observations.
  cbn [Sql.tbl_entities].
  induction (Sql.tbl_entities db) as [|x l IH]; [discriminate|].
  cbn [map find]. intros Hnd Hsel. inversion Hnd as [|? ? Hx Hl]; subst.
  destruct (Sql.name_is n x) eqn:Hn.
  - injection Hsel as <-. cbn [Sql.id]. now rewrite Z.eqb_refl.
  - destruct (Sql.id x =? Sql.id row)%Z eqn:Hid.
    + apply Z.eqb_eq in Hid. apply find_some in Hsel as [Hin _].
      destruct Hx. rewrite Hid. now apply in_map.
    + now apply IH.
Qed.

(** [addObservations] that adds something to an existing entity leaves the
    index as it is and spawns exactly one closure, which carries the
    entity's id and the text "name observations..." of the merged list.
    When that closure resumes it changes nothing: if the model gives an
    embedding, the first statement of the closure binds
    [embedding.buffer], throws, and the error is caught and logged.  The
    tables stay as [addObservations] left them and the index keeps, for
    that entity, the embedding it had, computed from the observations it
    had before; the closure is gone. *)
Theorem added_observations_embedding :
  forall (Embedding : Type) (generateEmbedding : string -> Error + Embedding)
         (o : ObservationInput) (s : Enhanced.Store Embedding) (row : Sql.EntityRow),
    unique_ids (Enhanced.tables s) ->
    Sql.select_entity_by_name (entityName o) (Enhanced.tables s) = Some row ->
    let existing := splitObservations (Sql.col_observations row) in
    let added := filter (fun c => negb (JS.includes existing c)) (contents o) in
    let text := (Sql.col_name row ++ " " ++ JS.join " " (existing ++ added)%list)%string in
    let s1 := fst (Enhanced.addObservations [o] s) in
    added <> [] ->
    Enhanced.tables s1
    = Sql.update_observations (JS.join "|||" (existing ++ added)%list)
        (entityName o) (Enhanced.tables s)
    /\ Enhanced.entities_vec s1 = Enhanced.entities_vec s
    /\ Enhanced.tasks s1
       = (Enhanced.tasks s ++ [Enhanced.RefreshEmbedding (Sql.id row) text])%list
    /\ Enhanced.resume generateEmbedding (length (Enhanced.tasks s)) s1
       = Enhanced.mkStore (Enhanced.tables s1) (Enhanced.entities_vec s)
           (Enhanced.tasks s).
Proof.
  intros Embedding generateEmbedding o s row Hids Hsel existing added text s1 Hadded.
  assert (Hs1 : s1 = Enhanced.mkStore
                       (Sql.update_observations (JS.join "|||" (existing ++ added)%list)
                          (entityName o) (Enhanced.tables s))
                       (Enhanced.entities_vec s)
                       (Enhanced.tasks s ++ [Enhanced.RefreshEmbedding (Sql.id row) text])).
  { unfold s1. rewrite addObservations_single. cbn [fst].
    unfold Enhanced.addObservationsTo, bind, query, Enhanced.ofTables.
    rewrite Hsel. cbv zeta. fold existing. fold added.
    destruct added as [|a added'] eqn:Ha; [contradiction|].
    cbn [length Nat.ltb Nat.leb]. unfold exec, Enhanced.setTables, ret.
    cbn [fst snd Enhanced.tables].
    rewrite (select_by_id_after_update _ _ _ _ Hids Hsel).
    cbn [Sql.col_name fst snd]. unfold Enhanced.spawn. reflexivity. }
  rewrite Hs1. cbn [Enhanced.entities_vec Enhanced.tasks Enhanced.tables].
  split; [reflexivity|]. split; [reflexivity|]. split; [reflexivity|].
  rewrite resume_last. apply runTask_idle.
Qed.

(** ** Lexical search: what [LIKE] computes *)

Lemma lower_char_idempotent c : JS.lower_char (JS.lower_char c) = JS.lower_char c.
Proof. destruct c as [[] [] [] [] [] [] [] []]; reflexivity. Qed.

Lemma lower_char_no_wildcard c :
  negb (Ascii.eqb c "%") && negb (Ascii.eqb c "_") = true ->
  negb (Ascii.eqb (JS.lower_char c) "%") && negb (Ascii.eqb (JS.lower_char c) "_") = true.
Proof. destruct c as [[] [] [] [] [] [] [] []]; intros H; try reflexivity; exact H. Qed.

Lemma toLowerCase_idempotent s : JS.toLowerCase (JS.toLowerCase s) = JS.toLowerCase s.
Proof.
  induction s as [|c s IH]; [reflexivity|].
  simpl. now rewrite lower_char_idempotent, IH.
Qed.

Lemma toLowerCase_no_wildcard s :
  no_wildcard s = true -> no_wildcard (JS.toLowerCase s) = true.
Proof.
  induction s as [|c s IH]; [reflexivity|].
  cbn [no_wildcard JS.toLowerCase]. intros H. apply andb_prop in H as [Hc Hs].
  rewrite (lower_char_no_wildcard c Hc). now apply IH.
Qed.

Lemma lower_char_nul c : Ascii.eqb (JS.lower_char c) zero = Ascii.eqb c zero.
Proof. destruct c as [[] [] [] [] [] [] [] []]; reflexivity. Qed.

Lemma lower_char_ascii c :
  (nat_of_ascii (JS.lower_char c) <? 128)%nat = (nat_of_ascii c <? 128)%nat.
Proof. destruct c as [[] [] [] [] [] [] [] []]; reflexivity. Qed.

Lemma c_string_lower s : Sql.c_string (JS.toLowerCase s) = JS.toLowerCase (Sql.c_string s).
Proof.
  induction s as [|c s IH]; [reflexivity|].
  cbn [JS.toLowerCase Sql.c_string]. rewrite lower_char_nul.
  destruct (Ascii.eqb c zero); [reflexivity|]. cbn [JS.toLowerCase]. now rewrite IH.
Qed.

Lemma c_string_no_nul s : no_nul s = true -> Sql.c_string s = s.
Proof.
  induction s as [|c s IH]; [reflexivity|].
  cbn [no_nul Sql.c_string]. intros H. apply andb_prop in H as [Hc Hs].
  apply negb_true_iff in Hc. rewrite Hc. now rewrite IH.
Qed.

Lemma no_nul_lower s : no_nul (JS.toLowerCase s) = no_nul s.
Proof.
  induction s as [|c s IH]; [reflexivity|].
  cbn [JS.toLowerCase no_nul]. now rewrite lower_char_nul, IH.
Qed.

Lemma no_nul_app a b : no_nul (a ++ b) = no_nul a && no_nul b.
Proof.
  induction a as [|c a IH]; [reflexivity|].
  cbn [append no_nul]. now rewrite IH, andb_assoc.
Qed.

Lemma ascii_text_lower s : ascii_text (JS.toLowerCase s) = ascii_text s.
Proof.
  induction s as [|c s IH]; [reflexivity|].
  cbn [JS.toLowerCase ascii_text]. now rewrite lower_char_ascii, IH.
Qed.

Lemma length_lower s : String.length (JS.toLowerCase s) = String.length s.
Proof. induction s as [|c s IH]; [reflexivity|]. cbn. now rewrite IH. Qed.

Lemma length_app a b : String.length (a ++ b) = String.length a + String.length b.
Proof. induction a as [|c a IH]; [reflexivity|]. cbn. now rewrite IH. Qed.

Lemma lower_c_string_lower s :
  JS.toLowerCase (Sql.c_string (JS.toLowerCase s)) = Sql.c_string (JS.toLowerCase s).
Proof. now rewrite <- c_string_lower, toLowerCase_idempotent. Qed.

(** [%] at the end of a pattern matches whatever is left. *)
Lemma like_percent skipping x : Sql.like_any (Sql.like_match "") skipping x = true.
Proof.
  revert skipping. induction x as [|d x IH]; intros skipping; [reflexivity|].
  cbn [Sql.like_any]. destruct (skipping && Sql.continuation_byte d); [apply IH|].
  cbn [Sql.like_match orb]. apply IH.
Qed.

Lemma like_any_here rest x : rest x = true -> Sql.like_any rest false x = true.
Proof.
  intros H. destruct x as [|d x]; [exact H|].
  cbn [Sql.like_any andb]. now rewrite H.
Qed.

(** A pattern read as plain text matches that text, whatever wildcards it
    holds. *)
Lemma like_itself p : forall t, Sql.like_match (p ++ "%") (p ++ t) = true.
Proof.
  induction p as [|c p IH]; intros t.
  - cbn [append Sql.like_match]. change (Ascii.eqb "%" "%") with true. cbv iota.
    apply like_percent.
  - change (String c p ++ "%") with (String c (p ++ "%")).
    change (String c p ++ t) with (String c (p ++ t)).
    destruct (Ascii.eqb c "%") eqn:E.
    + apply Ascii.eqb_eq in E. subst c. cbn [Sql.like_match].
      change (Ascii.eqb "%" "%") with true. cbv iota.
      cbn [Sql.like_any andb]. change (Sql.lead_byte "%") with false.
      rewrite (like_any_here _ _ (IH t)). apply orb_true_r.
    + cbn [Sql.like_match]. rewrite E. destruct (Ascii.eqb c "_") eqn:E'.
      * apply Ascii.eqb_eq in E'. subst c. apply IH.
      * rewrite Ascii.eqb_refl. apply IH.
Qed.

(** On lower-case text, a pattern without wildcards followed by [%]
    matches exactly the texts it is a prefix of. *)
Lemma like_prefix p :
  no_wildcard p = true -> JS.toLowerCase p = p ->
  forall x, JS.toLowerCase x = x ->
            Sql.like_match (p ++ "%") x = prefix p x.
Proof.
  induction p as [|c p IH]; intros Hw Hp x Hx.
  - cbn [append Sql.like_match]. change (Ascii.eqb "%" "%") with true. cbv iota.
    rewrite like_percent. now destruct x.
  - cbn [no_wildcard] in Hw. apply andb_prop in Hw as [Hc Hw].
    apply andb_prop in Hc as [Hc1 Hc2].
    apply negb_true_iff in Hc1, Hc2.
    cbn [JS.toLowerCase] in Hp. injection Hp as Hlc Hp.
    change (String c p ++ "%") with (String c (p ++ "%")).
    cbn [Sql.like_match]. rewrite Hc1.
    destruct x as [|d x]; [reflexivity|].
    cbn [JS.toLowerCase] in Hx. injection Hx as Hld Hx.
    rewrite Hc2, Hlc, Hld. cbn [prefix].
    rewrite (IH Hw Hp x Hx).
    destruct (ascii_dec c d) as [->|Hne].
    + now rewrite Ascii.eqb_refl.
    + apply Ascii.eqb_neq in Hne. now rewrite Hne.
Qed.

Lemma prefix_split p : forall x, prefix p x = true -> exists t, x = p ++ t.
Proof.
  induction p as [|c p IH]; intros x H; [now exists x|].
  destruct x as [|d x]; [discriminate|]. cbn [prefix] in H.
  destruct (ascii_dec c d) as [<-|]; [|discriminate].
  destruct (IH x H) as [t ->]. now exists t.
Qed.

(** An ASCII text does not begin in the middle of a character. *)
Lemma prefix_at_continuation p d t :
  ascii_text p = true -> Sql.continuation_byte d = true ->
  prefix p (String d t) = true -> p = "".
Proof.
  intros Hp Hd H. destruct p as [|c p]; [reflexivity|].
  cbn [prefix] in H. destruct (ascii_dec c d) as [->|]; [|discriminate H].
  cbn [ascii_text] in Hp. apply andb_prop in Hp as [Hc _].
  unfold Sql.continuation_byte in Hd. apply andb_prop in Hd as [Hd _].
  apply Nat.ltb_lt in Hc. apply Nat.leb_le in Hd. lia.
Qed.

Lemma str_includes_empty x : JS.str_includes x "" = true.
Proof. now destruct x. Qed.

(** Where the text contains an ASCII string, the loop of [%] comes to try
    the rest of the pattern there. *)
Lemma like_any_contains p rest :
  ascii_text p = true ->
  (forall t, prefix p t = true -> rest t = true) ->
  forall x skipping, JS.str_includes x p = true -> Sql.like_any rest skipping x = true.
Proof.
  intros Hp Hrest. induction x as [|d x IH]; intros skipping H.
  - cbn [JS.str_includes] in H. rewrite orb_false_r in H. now apply Hrest.
  - cbn [JS.str_includes] in H. cbn [Sql.like_any].
    destruct (skipping && Sql.continuation_byte d) eqn:Hskip.
    + apply IH. apply orb_true_iff in H as [H|H]; [|exact H].
      apply andb_prop in Hskip as [_ Hd].
      rewrite (prefix_at_continuation p d x Hp Hd H). apply str_includes_empty.
    + apply orb_true_iff in H as [H|H].
      * now rewrite (Hrest _ H).
      * rewrite (IH _ H). apply orb_true_r.
Qed.

Lemma like_contains p x :
  ascii_text p = true ->
  JS.str_includes x p = true -> Sql.like_match ("%" ++ p ++ "%") x = true.
Proof.
  intros Hp H. change ("%" ++ p ++ "%") with (String "%" (p ++ "%")).
  cbn [Sql.like_match]. change (Ascii.eqb "%" "%") with true. cbv iota.
  apply (like_any_contains p); [exact Hp| |exact H].
  intros t Ht. destruct (prefix_split _ _ Ht) as [t' ->]. apply like_itself.
Qed.

(** On lower-case text the loop of [%] before an ASCII string without
    wildcards finds exactly the texts that contain the string. *)
Lemma like_any_exact p rest :
  ascii_text p = true ->
  (forall t, JS.toLowerCase t = t -> rest t = prefix p t) ->
  forall x skipping,
    JS.toLowerCase x = x -> Sql.like_any rest skipping x = JS.str_includes x p.
Proof.
  intros Hp Hrest. induction x as [|d x IH]; intros skipping Hx.
  - cbn [Sql.like_any JS.str_includes]. rewrite orb_false_r. now apply Hrest.
  - assert (Hx' : JS.toLowerCase x = x).
    { cbn [JS.toLowerCase] in Hx. now injection Hx. }
    cbn [Sql.like_any JS.str_includes].
    destruct (skipping && Sql.continuation_byte d) eqn:Hskip.
    + rewrite (IH _ Hx').
      destruct (prefix p (String d x)) eqn:Hpre; [|reflexivity].
      apply andb_prop in Hskip as [_ Hd].
      rewrite (prefix_at_continuation p d x Hp Hd Hpre).
      now rewrite str_includes_empty.
    + now rewrite (Hrest _ Hx), (IH _ Hx').
Qed.

Lemma like_substring p :
  ascii_text p = true -> no_wildcard p = true -> JS.toLowerCase p = p ->
  forall x, JS.toLowerCase x = x ->
            Sql.like_match ("%" ++ p ++ "%") x = JS.str_includes x p.
Proof.
  intros Ha Hw Hp x Hx. change ("%" ++ p ++ "%") with (String "%" (p ++ "%")).
  cbn [Sql.like_match]. change (Ascii.eqb "%" "%") with true. cbv iota.
  apply like_any_exact; [exact Ha| |exact Hx].
  intros t Ht. now apply like_prefix.
Qed.







(** *** The scan and the two statements of the search *)

Lemma scan_where_total {A : Type} (clause : A -> Error + bool) (f : A -> bool) rows :
  (forall r, In r rows -> clause r = inr (f r)) ->
  Sql.scan_where clause rows = inr (filter f rows).
Proof.
  induction rows as [|r rows IH]; intros H; [reflexivity|].
  cbn [Sql.scan_where filter]. rewrite (H r (or_introl eq_refl)).
  rewrite IH by (intros r' Hr'; apply H; now right).
  reflexivity.
Qed.

Lemma select_entities_like_run pattern db :
  (Z.of_nat (String.length pattern) <= 50000)%Z ->
  Sql.select_entities_like pattern pattern pattern db
  = inr (filter (like_clause pattern) (Sql.tbl_entities db)).
Proof.
  intros Hlen. unfold Sql.select_entities_like. apply scan_where_total.
  intros r _. unfold Sql.like, Sql.SQLITE_MAX_LIKE_PATTERN_LENGTH, like_clause.
  assert ((50000 <? Z.of_nat (String.length pattern))%Z = false) as ->
    by (apply Z.ltb_ge; lia).
  cbn [Sql.or_else].
  destruct (Sql.like_match _ (Sql.c_string (Sql.LOWER (Sql.col_name r))));
    [reflexivity|].
  destruct (Sql.like_match _ (Sql.c_string (Sql.LOWER (Sql.col_entityType r))));
    reflexivity.
Qed.

Lemma two_placeholders n :
  (Sql.SQLITE_MAX_VARIABLE_NUMBER <? Z.of_nat (n + n))%Z = (16383 <? Z.of_nat n)%Z.
Proof.
  unfold Sql.SQLITE_MAX_VARIABLE_NUMBER.
  destruct (16383 <? Z.of_nat n)%Z eqn:E;
    [apply Z.ltb_lt in E; apply Z.ltb_lt; lia
    |apply Z.ltb_ge in E; apply Z.ltb_ge; lia].
Qed.

Lemma basic_searchNodes_run q db es :
  Sql.select_entities_like ("%" ++ JS.toLowerCase q ++ "%")
    ("%" ++ JS.toLowerCase q ++ "%") ("%" ++ JS.toLowerCase q ++ "%") db = inr es ->
  Basic.searchNodes q db
  = (db,
     if (16383 <? Z.of_nat (length es))%Z
     then inl (SqliteError "too many SQL variables")
     else inr (mkGraph (map rowToEntity es)
                 (map rowToRelation
                    (Sql.select_relations_between
                       (map Sql.col_name es) (map Sql.col_name es) db)))).
Proof.
  intros Hsel. unfold Basic.searchNodes, bind. cbv zeta.
  unfold attempt at 1. rewrite Hsel.
  destruct es as [|r es].
  - cbn [map length Nat.ltb Nat.leb]. unfold ret.
    now rewrite select_relations_between_nil.
  - remember (map Sql.col_name (r :: es)) as names eqn:Hnames.
    assert (Hpos : (0 <? length names)%nat = true) by (subst names; reflexivity).
    assert (Hlen : length (r :: es) = length names) by (subst names; now rewrite length_map).
    rewrite Hpos, Hlen, <- two_placeholders.
    unfold prepared, attempt, Sql.prepare_placeholders, query.
    destruct (Sql.SQLITE_MAX_VARIABLE_NUMBER <? _)%Z; reflexivity.
Qed.

Lemma pattern_length q :
  (Z.of_nat (String.length q) <= 49998)%Z ->
  (Z.of_nat (String.length ("%" ++ JS.toLowerCase q ++ "%")) <= 50000)%Z.
Proof.
  intros H. change ("%" ++ JS.toLowerCase q ++ "%")
    with (String "%" (JS.toLowerCase q ++ "%")).
  cbn [String.length]. rewrite length_app, length_lower. cbn [String.length]. lia.
Qed.

Lemma pattern_c_string q :
  no_nul q = true ->
  Sql.c_string ("%" ++ JS.toLowerCase q ++ "%") = "%" ++ JS.toLowerCase q ++ "%".
Proof.
  intros H. apply c_string_no_nul.
  change ("%" ++ JS.toLowerCase q ++ "%") with (String "%" (JS.toLowerCase q ++ "%")).
  cbn [no_nul]. rewrite no_nul_app, no_nul_lower, H. reflexivity.
Qed.

(** The lexical search on an ASCII query without [%], [_] and NUL, of at
    most 49998 characters: it finds the rows whose name, type or stored
    observation text, folded to lower case and read up to its first NUL,
    contains the query folded to lower case; it returns them in table
    order, with the relations between them in the order of the index on
    the triple.  When more than 16383 rows are found the statement for the
    relations has more placeholders than SQLite accepts and the search
    throws.  The tables are not touched. *)
Theorem searchNodes_lexical_substring :
  forall (q : string) (db : Sql.Tables),
    no_wildcard q = true ->
    ascii_text q = true ->
    no_nul q = true ->
    (Z.of_nat (String.length q) <= 49998)%Z ->
    Basic.searchNodes q db =
    (db,
     let es := filter (row_match q) (Sql.tbl_entities db) in
     let names := map Sql.col_name es in
     if (16383 <? Z.of_nat (length es))%Z
     then inl (SqliteError "too many SQL variables")
     else inr (mkGraph (map rowToEntity es)
                 (map rowToRelation
                    (Sql.index_order Sql.by_triple
                       (filter (fun r => Sql.text_in names (Sql.from_entity r)
                                         && Sql.text_in names (Sql.to_entity r))
                               (Sql.tbl_relations db)))))).
Proof.
  intros q db Hw Ha Hn Hlen.
  assert (Hsel : Sql.select_entities_like
                   ("%" ++ JS.toLowerCase q ++ "%") ("%" ++ JS.toLowerCase q ++ "%")
                   ("%" ++ JS.toLowerCase q ++ "%") db
                 = inr (filter (row_match q) (Sql.tbl_entities db))).
  { rewrite (select_entities_like_run _ db (pattern_length q Hlen)).
    f_equal. apply filter_ext. intros r.
    unfold like_clause, row_match, Sql.LOWER. cbv zeta.
    rewrite (pattern_c_string q Hn).
    rewrite !like_substring;
      auto using toLowerCase_no_wildcard, toLowerCase_idempotent,
        lower_c_string_lower.
    all: now rewrite ascii_text_lower. }
  rewrite (basic_searchNodes_run q db _ Hsel). reflexivity.
Qed.


(** With the empty query the lexical search finds every stored entity; it
    returns them in table order, with the relations whose two endpoints
    are names of stored entities, in the order of the index on the triple.
    On tables of more than 16383 entities it throws. *)
Theorem searchNodes_lexical_empty_query :
  forall db : Sql.Tables,
    Basic.searchNodes "" db
    = (db,
       if (16383 <? Z.of_nat (length (Sql.tbl_entities db)))%Z
       then inl (SqliteError "too many SQL variables")
       else inr (mkGraph
                   (entities (graphOf db))
                   (map rowToRelation
                      (Sql.index_order Sql.by_triple
                         (filter (fun row =>
                                    Sql.text_in (map Sql.col_name (Sql.tbl_entities db))
                                                (Sql.from_entity row)
                                    && Sql.text_in (map Sql.col_name (Sql.tbl_entities db))
                                                   (Sql.to_entity row))
                                 (Sql.tbl_relations db)))))).
Proof.
  intros db.
  assert (Hsel : Sql.select_entities_like "%%" "%%" "%%" db = inr (Sql.tbl_entities db)).
  { rewrite select_entities_like_run by (cbn; lia). f_equal.
    apply filter_keeps_all. intros r _. unfold like_clause.
    change (Sql.c_string "%%") with ("%" ++ "" ++ "%").
    now rewrite (like_contains "" _ eq_refl (str_includes_empty _)). }
  rewrite (basic_searchNodes_run "" db _ Hsel). reflexivity.
Qed.

(** ** The properties above on concrete stores *)

(** Relating A and B in a store without relations, then deleting the
    relation. *)
Lemma deleteRelations_undoes_create_witness :
  Forall (fun r => relation_stored (Enhanced.tables Example.pair) r = false)
         [Scenario.knows]
  /\ Enhanced.deleteRelations [Scenario.knows]
       (fst (Enhanced.createRelations [Scenario.knows] Example.pair))
     = (Example.pair, inr tt).
Proof.
  assert (H : Forall (fun r => relation_stored (Enhanced.tables Example.pair) r = false)
                     [Scenario.knows]).
  { repeat constructor. }
  split; [exact H|].
  exact (deleteRelations_undoes_create _ [Scenario.knows] Example.pair H).
Defined.

(** Deleting the one observation of A. *)
Lemma deleteObservations_removes_witness :
  observations_encoded (Enhanced.tables Scenario.withA)
  /\ snd (Enhanced.deleteObservations [mkDeletion "A" ["x"]] Scenario.withA) = inr tt
  /\ Enhanced.tasks (fst (Enhanced.deleteObservations [mkDeletion "A" ["x"]]
                            Scenario.withA))
     = Enhanced.tasks Scenario.withA.
Proof.
  assert (H : observations_encoded (Enhanced.tables Scenario.withA)).
  { unfold observations_encoded. vm_compute. constructor; [|constructor].
    exists ["x"]. split; [reflexivity|].
    split; repeat constructor; simpl; intuition discriminate. }
  split; [exact H|].
  pose proof (deleteObservations_removes _ [mkDeletion "A" ["x"]] Scenario.withA H)
    as (H1 & _ & _ & _ & _ & _ & _ & H8).
  split; [exact H1|exact H8].
Defined.

(** Deletions that name an observation A does not have and an entity that
    does not exist. *)
Lemma deleteObservations_idle_witness :
  unique_names (Enhanced.tables Scenario.withA)
  /\ Forall (deletion_idle (Enhanced.tables Scenario.withA)) Example.idle_deletions
  /\ Enhanced.deleteObservations Example.idle_deletions Scenario.withA
     = (Scenario.withA, inr tt).
Proof.
  assert (Hu : unique_names (Enhanced.tables Scenario.withA)).
  { unfold unique_names. vm_compute. repeat constructor; simpl; intuition discriminate. }
  assert (Hd : Forall (deletion_idle (Enhanced.tables Scenario.withA))
                      Example.idle_deletions).
  { unfold Example.idle_deletions.
    constructor; [|constructor; [exact I|constructor]].
    unfold deletion_idle. vm_compute. intros o [<-|[]] [H|[]]. discriminate H. }
  split; [exact Hu|]. split; [exact Hd|].
  exact (deleteObservations_idle _ Example.idle_deletions Scenario.withA Hu Hd).
Defined.

(** Deleting an entity and a relation that are not stored. *)
Lemma deletes_skip_missing_witness :
  Forall (fun n => Sql.select_entity_by_name n (Enhanced.tables Scenario.cascade) = None)
         ["Nobody"]
  /\ Enhanced.deleteEntities ["Nobody"] Scenario.cascade = (Scenario.cascade, inr tt)
  /\ Enhanced.deleteRelations [Example.knows_back] Scenario.cascade
     = (Scenario.cascade, inr tt).
Proof.
  assert (H1 : Forall (fun n => Sql.select_entity_by_name n
                                  (Enhanced.tables Scenario.cascade) = None)
                      ["Nobody"]).
  { repeat constructor. }
  assert (H2 : Forall (fun row => ~ In (Sql.from_entity row) ["Nobody"]
                                  /\ ~ In (Sql.to_entity row) ["Nobody"])
                      (Sql.tbl_relations (Enhanced.tables Scenario.cascade))).
  { vm_compute. repeat constructor; intros [H|[]]; discriminate H. }
  assert (H3 : Forall (fun r => relation_stored (Enhanced.tables Scenario.cascade) r
                                = false)
                      [Example.knows_back]).
  { repeat constructor. }
  split; [exact H1|].
  exact (deletes_skip_missing _ ["Nobody"] [Example.knows_back] Scenario.cascade
           H1 H2 H3).
Defined.


(** Adding "x" and "y" to A, which has "x", twice. *)
Lemma addObservations_again_witness :
  Sql.select_entity_by_name "A" (Enhanced.tables Scenario.withA) = Some Example.rowA
  /\ Enhanced.addObservations [Example.more]
       (fst (Enhanced.addObservations [Example.more] Scenario.withA))
     = (fst (Enhanced.addObservations [Example.more] Scenario.withA),
        inr [mkResult "A" []]).
Proof.
  assert (H1 : Sql.select_entity_by_name (entityName Example.more)
                 (Enhanced.tables Scenario.withA) = Some Example.rowA)
    by reflexivity.
  split; [exact H1|].
  apply (addObservations_again _ Example.more Scenario.withA Example.rowA H1).
  - vm_compute. repeat constructor.
  - vm_compute. repeat constructor.
  - left. discriminate.
Defined.

(** Adding "y" to A, whose embedding record was computed from "A x": the
    closure spawned for the new text leaves the record as it is. *)
Lemma added_observations_embedding_witness :
  unique_ids (Enhanced.tables Example.embedded)
  /\ Enhanced.tasks (fst (Enhanced.addObservations [Example.more] Example.embedded))
     = [Enhanced.RefreshEmbedding 1 "A x y"]
  /\ Enhanced.resume Scenario.generateEmbedding 0
       (fst (Enhanced.addObservations [Example.more] Example.embedded))
     = Enhanced.mkStore
         (Sql.mkTables [Sql.mkEntityRow 1 "A" "person" "x|||y"] [] 1)
         [Enhanced.mkVecRow 1 3%Z] [].
Proof.
  assert (Hu : unique_ids (Enhanced.tables Example.embedded)).
  { unfold unique_ids. vm_compute. repeat constructor; simpl; intuition discriminate. }
  split; [exact Hu|].
  assert (Hadd : filter (fun c => negb (JS.includes
                                          (splitObservations
                                             (Sql.col_observations Example.rowA)) c))
                        (contents Example.more) <> []) by discriminate.
  pose proof (added_observations_embedding _ Scenario.generateEmbedding Example.more
                Example.embedded Example.rowA Hu eq_refl Hadd) as H.
  cbv zeta in H. destruct H as (_ & _ & H3 & H4).
  split; [exact H3|]. exact H4.
Defined.

(** The lexical search for "tea", a query without wildcards. *)
Lemma searchNodes_lexical_substring_witness :
  no_wildcard "tea" = true
  /\ ascii_text "tea" = true
  /\ Basic.searchNodes "tea" Scenario.library
     = (Scenario.library, inr (mkGraph [Scenario.ada] [])).
Proof.
  assert (H : no_wildcard "tea" = true) by reflexivity.
  assert (Ha : ascii_text "tea" = true) by reflexivity.
  assert (Hl : (Z.of_nat (String.length "tea") <= 49998)%Z) by (simpl; lia).
  split; [exact H|]. split; [exact Ha|].
  rewrite (searchNodes_lexical_substring "tea" Scenario.library H Ha eq_refl Hl).
  reflexivity.
Defined.

(** A, created by the lexical server in the fresh database, is read back
    with its observation. *)
Lemma createEntities_round_trip_witness :
  all_no_pipe (observations Scenario.A)
  /\ Basic.createEntities [Scenario.A] Sql.emptyTables = (Scenario.tablesA, inr [Scenario.A])
  /\ observationsOf "A" Scenario.tablesA = Some ["x"].
Proof.
  assert (Hp : all_no_pipe (observations Scenario.A)) by (repeat constructor).
  assert (Hne : observations Scenario.A <> [""]) by discriminate.
  split; [exact Hp|].
  destruct (createEntities_round_trip Scenario.A Sql.emptyTables eq_refl Hp Hne)
    as (H1 & H2 & _).
  split; [exact H1|exact H2].
Defined.

(** Adding "x" and "y" to A, which has "x": "y" is added. *)
Lemma addObservations_merge_witness :
  Sql.select_entity_by_name "A" (Enhanced.tables Scenario.withA) = Some Example.rowA
  /\ snd (Enhanced.addObservations [Example.more] Scenario.withA)
     = inr [mkResult "A" ["y"]].
Proof.
  assert (H1 : Sql.select_entity_by_name (entityName Example.more)
                 (Enhanced.tables Scenario.withA) = Some Example.rowA)
    by reflexivity.
  split; [exact H1|].
  exact (proj1 (@addObservations_merge Scenario.Embedding Example.more Scenario.withA
                  Example.rowA H1)).
Defined.

(** The text of two observations decodes to them. *)
Lemma observation_text_round_trips_witness :
  forallb no_pipe ["likes tea"; "plays chess"] = true
  /\ splitObservations (JS.join "|||" ["likes tea"; "plays chess"])
     = ["likes tea"; "plays chess"].
Proof.
  assert (H : forallb no_pipe ["likes tea"; "plays chess"] = true) by reflexivity.
  split; [exact H|].
  exact (proj2 observation_text_round_trips ["likes tea"; "plays chess"] H).
Defined.

